(** * regression.py: the golden-file regression harness of clip

    A shallow embedding of [regression.py].  The script runs a fixed list
    of Go example programs through [go run], compares what they print with
    golden files under [rdata/], prints one diagnostic per failing case and
    a summary line at the end.

    Python values are modelled as follows.
    - [str] is a list of Unicode code points ([N]); [lit] turns a Rocq
      string literal into one.
    - [int] is [Z].
    - Effects (spawning a child, opening a file, printing) are recorded in
      a trace of events; what the outside world answers is read from a
      [World].  A raised exception ends the computation with [Raise]. *)

From Stdlib Require Import List ZArith NArith Bool Lia.
From Stdlib Require Import Ascii String DecimalString.
Import ListNotations.

Local Open Scope Z_scope.

(** ** Python strings *)

Module PyStr.

Definition char := N.
Definition str := list char.

Definition lit (s : string) : str := map N_of_ascii (list_ascii_of_string s).

Definition LF : char := 10%N.

Definition char_eqb (a b : char) : bool := N.eqb a b.

Fixpoint str_eqb (a b : str) : bool :=
  match a, b with
  | [], [] => true
  | x :: a', y :: b' => char_eqb x y && str_eqb a' b'
  | _, _ => false
  end.

(** [str.isspace] on one code point: the characters CPython's
    [_PyUnicode_IsWhitespace] accepts. *)
Definition isspace (c : char) : bool :=
  ((9 <=? c) && (c <=? 13) ||
   (28 <=? c) && (c <=? 32) ||
   (c =? 133) || (c =? 160) || (c =? 5760) ||
   (8192 <=? c) && (c <=? 8202) ||
   (c =? 8232) || (c =? 8233) || (c =? 8239) || (c =? 8287) ||
   (c =? 12288))%N.

Fixpoint lstrip (s : str) : str :=
  match s with
  | [] => []
  | c :: s' => if isspace c then lstrip s' else s
  end.

Definition rstrip (s : str) : str := rev (lstrip (rev s)).

(** [s.strip()]: drop the leading, then the trailing whitespace. *)
Definition strip (s : str) : str := rstrip (lstrip s).

(** [sep.join(l)] *)
Fixpoint join (sep : str) (l : list str) : str :=
  match l with
  | [] => []
  | [x] => x
  | x :: l' => x ++ sep ++ join sep l'
  end.

(** [str(n)] / [f'{n}'] for an int: decimal digits, a minus sign when
    negative. *)
Definition str_of_int (n : Z) : str := lit (NilZero.string_of_int (Z.to_int n)).

(** The lines of a printed text: pieces ended by a line feed, and a last
    unterminated piece if there is one. *)
Fixpoint lines (s : str) : list str :=
  match s with
  | [] => []
  | c :: s' =>
      if char_eqb c LF then [] :: lines s'
      else match lines s' with
           | [] => [[c]]
           | l :: ls => (c :: l) :: ls
           end
  end.

(** [needle in hay] *)
Fixpoint startswith (p s : str) : bool :=
  match p, s with
  | [], _ => true
  | x :: p', y :: s' => char_eqb x y && startswith p' s'
  | _ :: _, [] => false
  end.

Fixpoint contains (needle hay : str) : bool :=
  startswith needle hay ||
  match hay with
  | [] => false
  | _ :: hay' => contains needle hay'
  end.

End PyStr.
Import PyStr.

(** ** Exceptions, the outside world and the effect trace *)

(** The exception classes that matter here.  [except FileNotFoundError]
    catches the first one only. *)
Inductive exn : Type :=
| FileNotFoundError
| PermissionError
| IsADirectoryError
| UnicodeDecodeError.

Definition is_FileNotFoundError (e : exn) : bool :=
  match e with FileNotFoundError => true | _ => false end.

Inductive outcome (A : Type) : Type :=
| Return (a : A)
| Raise (e : exn).
Arguments Return {A} a.
Arguments Raise {A} e.

(** [subprocess.CompletedProcess], with [text=True]. *)
Record CompletedProcess : Type := mkReply {
  returncode : Z;
  stdout : str;
  stderr : str
}.

(** What the environment answers.  [subprocess_run argv] is the result of
    [subprocess.run(argv, capture_output=True, text=True, encoding='utf-8')]:
    a completed process, or the exception raised when the child cannot be
    launched.  [open_read filename] is the result of
    [open(filename, 'rt', encoding='utf-8')] followed by [file.read()].
    The environment does not change during a run. *)
Record World : Type := mkWorld {
  subprocess_run : list str -> outcome CompletedProcess;
  open_read : str -> outcome str
}.

Inductive event : Type :=
| EvChdir
| EvRun (argv : list str)
| EvOpen (filename : str)
| EvPrint (text : str).

Definition trace := list event.

(** ** A small monad: reader of the world, writer of the trace, errors *)

Definition M (A : Type) : Type := World -> trace * outcome A.

Definition ret {A} (a : A) : M A := fun _ => ([], Return a).

Definition bind {A B} (m : M A) (k : A -> M B) : M B :=
  fun w =>
    match m w with
    | (t1, Return a) => let (t2, o) := k a w in (t1 ++ t2, o)
    | (t1, Raise e) => (t1, Raise e)
    end.

Notation "x <- m ;; k" := (bind m (fun x => k))
  (at level 61, m at next level, right associativity).
Notation "m ;; k" := (bind m (fun _ => k))
  (at level 61, right associativity).

(** [try: body  except FileNotFoundError: handler] *)
Definition try_except_FileNotFoundError {A} (body handler : M A) : M A :=
  fun w =>
    match body w with
    | (t1, Return a) => (t1, Return a)
    | (t1, Raise e) =>
        if is_FileNotFoundError e
        then let (t2, o) := handler w in (t1 ++ t2, o)
        else (t1, Raise e)
    end.

Definition run (argv : list str) : M CompletedProcess :=
  fun w => ([EvRun argv], subprocess_run w argv).

Definition open_file (filename : str) : M str :=
  fun w => ([EvOpen filename], open_read w filename).

Definition print (text : str) : M unit :=
  fun _ => ([EvPrint text], Return tt).

Definition chdir : M unit := fun _ => ([EvChdir], Return tt).

(** What a trace leaves on standard output: each [print] writes its text
    and a line feed. *)
Fixpoint printed (t : trace) : str :=
  match t with
  | [] => []
  | EvPrint s :: t' => s ++ [LF] ++ printed t'
  | _ :: t' => printed t'
  end.

Fixpoint prints (t : trace) : list str :=
  match t with
  | [] => []
  | EvPrint s :: t' => s :: prints t'
  | _ :: t' => prints t'
  end.

Fixpoint spawns (t : trace) : list (list str) :=
  match t with
  | [] => []
  | EvRun a :: t' => a :: spawns t'
  | _ :: t' => spawns t'
  end.

Fixpoint opens (t : trace) : list str :=
  match t with
  | [] => []
  | EvOpen f :: t' => f :: opens t'
  | _ :: t' => opens t'
  end.

(** ** The program *)

(** The four diagnostics of [test], as its f-strings build them. *)
Definition DQUOTE : str := [34%N].

Definition msg_bad_return_code (cmd : str) (rc : Z) : str :=
  lit "FAIL bad return code " ++ DQUOTE ++ cmd ++ DQUOTE ++ lit ": "
    ++ str_of_int rc.

Definition msg_stderr (cmd : str) (err : str) : str :=
  lit "FAIL stderr " ++ DQUOTE ++ cmd ++ DQUOTE ++ lit ": " ++ err.

Definition msg_stdout_differs (filename : str) : str :=
  lit "FAIL stdout != " ++ filename.

Definition msg_missing (filename : str) : str :=
  lit "FAIL missing: " ++ filename.

Definition go_run (cmd : list str) : list str := [lit "go"; lit "run"] ++ cmd.

Definition golden (expected : str) : str := lit "rdata/" ++ expected.

(** [def test(cmd, expected)] *)
Definition test (cmd : list str) (expected : str) : M Z :=
  let cmd := go_run cmd in
  reply <- run cmd ;;
  let cmd := join (lit " ") cmd in
  if negb (returncode reply =? 0) then
    print (msg_bad_return_code cmd (returncode reply)) ;;
    ret 0
  else if negb (str_eqb (stderr reply) []) then
    print (msg_stderr cmd (stderr reply)) ;;
    ret 0
  else
    let filename := golden expected in
    try_except_FileNotFoundError
      (text <- open_file filename ;;
       let text := strip text in
       if negb (str_eqb (strip (stdout reply)) text) then
         print (msg_stdout_differs filename) ;;
         ret 0
       else ret 1)
      (print (msg_missing filename) ;;
       ret 0).

Definition case := (list str * str)%type.

(** The [for] loop of [main], from the tally [(total, ok)]. *)
Fixpoint loop (cases : list case) (total ok : Z) : M (Z * Z) :=
  match cases with
  | [] => ret (total, ok)
  | (cmd, expected) :: rest =>
      let total := total + 1 in
      r <- test cmd expected ;;
      let ok := ok + r in
      loop rest total ok
  end.

Definition msg_fail (ok total : Z) : str :=
  lit "FAIL " ++ str_of_int ok ++ lit "/" ++ str_of_int total.

Definition msg_all_ok (total : Z) : str :=
  lit "All " ++ str_of_int total ++ lit " OK".

Definition summary (total ok : Z) : str :=
  if negb (total =? ok) then msg_fail ok total else msg_all_ok total.

(** [main] over a given case list. *)
Definition main_on (cases : list case) : M unit :=
  chdir ;;
  tally <- loop cases 0 0 ;;
  let (total, ok) := (tally : Z * Z) in
  print (summary total ok).

Definition test_cases : list case :=
  [ ([lit "eg/eg1/eg1.go"], lit "eg1.txt");
    ([lit "eg/eg1/eg1.go"; lit "-h"], lit "eg1.hlp");
    ([lit "eg/eg2/eg2.go"], lit "eg2.txt");
    ([lit "eg/eg2/eg2.go"; lit "-h"], lit "eg2.hlp");
    ([lit "eg/subcommands/subcommands.go"; lit "-h"], lit "subcommands.hlp");
    ([lit "eg/subcommands/subcommands.go"; lit "-h"; lit "c"],
     lit "subcommands-c.hlp");
    ([lit "eg/subcommands/subcommands.go"; lit "-h"; lit "l"],
     lit "subcommands-l.hlp");
    ([lit "eg/subcommands/subcommands.go"; lit "-h"; lit "f"],
     lit "subcommands-f.hlp") ].

(** [def main()] *)
Definition main : M unit := main_on test_cases.

(** ** Sample environments *)

Definition reply_ok (out : str) : CompletedProcess := mkReply 0 out [].

(** Every child prints [hello] and a line feed; every golden file holds
    [hello]. *)
Definition world_hello : World :=
  mkWorld (fun _ => Return (reply_ok (lit "hello" ++ [LF])))
          (fun _ => Return (lit "hello")).

(** The [go] tool is not installed. *)
Definition world_no_go : World :=
  mkWorld (fun _ => Raise FileNotFoundError) (fun _ => Return []).

(** Children succeed, the golden files are gone. *)
Definition world_no_golden : World :=
  mkWorld (fun _ => Return (reply_ok (lit "hello" ++ [LF])))
          (fun _ => Raise FileNotFoundError).

(** Children succeed, the golden files cannot be read. *)
Definition world_unreadable : World :=
  mkWorld (fun _ => Return (reply_ok (lit "hello" ++ [LF])))
          (fun _ => Raise PermissionError).

(** Every child answers [r]; every golden file holds [hello]. *)
Definition world_reply (r : CompletedProcess) : World :=
  mkWorld (fun _ => Return r) (fun _ => Return (lit "hello")).

(** ** Vocabulary of the statements *)

Definition all_space (s : str) : Prop := Forall (fun c => isspace c = true) s.

Definition no_LF (s : str) : Prop := ~ In LF s.

(** [s'] is [s] with leading or trailing whitespace added or removed. *)
Definition ws_variant (s s' : str) : Prop :=
  exists core l r l' r',
    all_space l /\ all_space r /\ all_space l' /\ all_space r' /\
    s = l ++ core ++ r /\ s' = l' ++ core ++ r'.

(** The command as [test] shows it in its diagnostics. *)
Definition command_line (cmd : list str) : str := join (lit " ") (go_run cmd).

(** Every run of [test] follows one of the seven paths. *)
Inductive test_path (w : World) (cmd : list str) (expected : str) :
  trace * outcome Z -> Prop :=
| PathLaunchError e :
    subprocess_run w (go_run cmd) = Raise e ->
    test_path w cmd expected ([EvRun (go_run cmd)], Raise e)
| PathBadReturnCode r :
    subprocess_run w (go_run cmd) = Return r ->
    returncode r <> 0 ->
    test_path w cmd expected ([EvRun (go_run cmd);
                EvPrint (msg_bad_return_code (command_line cmd) (returncode r))],
               Return 0)
| PathStderr r :
    subprocess_run w (go_run cmd) = Return r ->
    returncode r = 0 -> stderr r <> [] ->
    test_path w cmd expected ([EvRun (go_run cmd);
                EvPrint (msg_stderr (command_line cmd) (stderr r))],
               Return 0)
| PathMissing r :
    subprocess_run w (go_run cmd) = Return r ->
    returncode r = 0 -> stderr r = [] ->
    open_read w (golden expected) = Raise FileNotFoundError ->
    test_path w cmd expected ([EvRun (go_run cmd); EvOpen (golden expected);
                EvPrint (msg_missing (golden expected))],
               Return 0)
| PathOpenError r e :
    subprocess_run w (go_run cmd) = Return r ->
    returncode r = 0 -> stderr r = [] ->
    open_read w (golden expected) = Raise e -> e <> FileNotFoundError ->
    test_path w cmd expected ([EvRun (go_run cmd); EvOpen (golden expected)], Raise e)
| PathDiffers r g :
    subprocess_run w (go_run cmd) = Return r ->
    returncode r = 0 -> stderr r = [] ->
    open_read w (golden expected) = Return g ->
    strip (stdout r) <> strip g ->
    test_path w cmd expected ([EvRun (go_run cmd); EvOpen (golden expected);
                EvPrint (msg_stdout_differs (golden expected))],
               Return 0)
| PathPass r g :
    subprocess_run w (go_run cmd) = Return r ->
    returncode r = 0 -> stderr r = [] ->
    open_read w (golden expected) = Return g ->
    strip (stdout r) = strip g ->
    test_path w cmd expected ([EvRun (go_run cmd); EvOpen (golden expected)], Return 1).

(** A case passes every check of [test]. *)
Definition case_passes (w : World) (c : case) : Prop :=
  exists r g,
    subprocess_run w (go_run (fst c)) = Return r /\
    returncode r = 0 /\ stderr r = [] /\
    open_read w (golden (snd c)) = Return g /\
    strip (stdout r) = strip g.

(** A case fails one of the four checks of [test]. *)
Definition case_fails (w : World) (c : case) : Prop :=
  exists r,
    subprocess_run w (go_run (fst c)) = Return r /\
    (returncode r <> 0 \/
     stderr r <> [] \/
     open_read w (golden (snd c)) = Raise FileNotFoundError \/
     exists g, open_read w (golden (snd c)) = Return g /\
               strip (stdout r) <> strip g).

(** What a case adds to [ok]. *)
Definition verdict (w : World) (c : case) : Z :=
  match snd (test (fst c) (snd c) w) with
  | Return z => z
  | Raise _ => 0
  end.

Definition sum (l : list Z) : Z := fold_right Z.add 0 l.

(** The traces of the per-case checks, in the order of the list. *)
Definition case_traces (w : World) (cases : list case) : trace :=
  List.concat (map (fun c => fst (test (fst c) (snd c) w)) cases).

(** ** The claims that fail on the code, as the specification words them *)

Definition cannot_be_opened (w : World) (filename : str) : Prop :=
  exists e, open_read w filename = Raise e.

(** [test] returns failure exactly when the exit code is non-zero, or
    stderr is non-empty, or the golden file cannot be opened, or the
    trimmed texts differ. *)
Definition failure_iff_as_stated (w : World) (cmd : list str) (expected : str)
  : Prop :=
  forall r,
    subprocess_run w (go_run cmd) = Return r ->
    (snd (test cmd expected w) = Return 0 <->
     (returncode r <> 0 \/
      stderr r <> [] \/
      cannot_be_opened w (golden expected) \/
      exists g, open_read w (golden expected) = Return g /\
                strip (stdout r) <> strip g)).

(** The environment [w] with the child's stdout replaced by [out] and the
    golden text replaced by [g]. *)
Definition with_texts (w : World) (out g : str) : World :=
  mkWorld
    (fun argv =>
       match subprocess_run w argv with
       | Return r => Return (mkReply (returncode r) out (stderr r))
       | Raise e => Raise e
       end)
    (fun filename =>
       match open_read w filename with
       | Return _ => Return g
       | Raise e => Raise e
       end).

(** Whatever is written to stderr makes the case a failure whose
    diagnostic shows the stderr text. *)
Definition stderr_reported_as_stated (w : World) (cmd : list str)
    (expected : str) : Prop :=
  forall r,
    subprocess_run w (go_run cmd) = Return r ->
    stderr r <> [] ->
    snd (test cmd expected w) = Return 0 /\
    exists msg, prints (fst (test cmd expected w)) = [msg] /\
                contains (stderr r) msg = true.

(** A failing case leaves exactly one line on standard output, a passing
    case none. *)
Definition one_line_as_stated (w : World) (cmd : list str) (expected : str)
  : Prop :=
  (snd (test cmd expected w) = Return 0 ->
     List.length (lines (printed (fst (test cmd expected w)))) = 1%nat) /\
  (snd (test cmd expected w) = Return 1 ->
     printed (fst (test cmd expected w)) = []).

(** An exception leaves [test] exactly when the child cannot be launched. *)
Definition raises_iff_as_stated (w : World) (cmd : list str) (expected : str)
  : Prop :=
  (exists e, snd (test cmd expected w) = Raise e) <->
  (exists e, subprocess_run w (go_run cmd) = Raise e).

(** One child spawned, one file read, and a diagnostic on failure. *)
Definition effects_as_stated (w : World) (cmd : list str) (expected : str)
  : Prop :=
  List.length (spawns (fst (test cmd expected w))) = 1%nat /\
  List.length (opens (fst (test cmd expected w))) = 1%nat /\
  (snd (test cmd expected w) = Return 0 ->
     prints (fst (test cmd expected w)) <> []).

(** Children and golden files answer as in [world_hello], but only for
    [go ...] commands and files under [rdata/]. *)
Definition world_hello_strict : World :=
  mkWorld
    (fun argv =>
       match argv with
       | a :: _ =>
           if str_eqb a (lit "go")
           then Return (reply_ok (lit "hello" ++ [LF]))
           else Raise FileNotFoundError
       | [] => Raise FileNotFoundError
       end)
    (fun filename =>
       if startswith (lit "rdata/") filename
       then Return (lit "hello")
       else Raise FileNotFoundError).

(** ** Vocabulary of the further properties *)

(** The argument vectors [main] hands to [subprocess.run], one per case. *)
Definition argvs (cases : list case) : list (list str) :=
  map (fun c => go_run (fst c)) cases.

(** A text with no whitespace at either end. *)
Definition tight (s : str) : bool :=
  match s with
  | [] => true
  | c :: _ => negb (isspace c) && negb (isspace (last s c))
  end.

(** ** Strings: equality, stripping, lines *)

Lemma str_eqb_eq (a b : str) : str_eqb a b = true <-> a = b.
Proof.
  revert b; induction a as [|x a IH]; intros [|y b]; simpl;
    try (split; [discriminate | congruence]); try tauto.
  unfold char_eqb. rewrite andb_true_iff, N.eqb_eq, IH.
  split; [intros [-> ->]; reflexivity | intros H; inversion H; auto].
Qed.

Lemma str_eqb_neq (a b : str) : str_eqb a b = false <-> a <> b.
Proof.
  rewrite <- str_eqb_eq. destruct (str_eqb a b); split; congruence.
Qed.

Lemma lstrip_all_space (l s : str) : all_space l -> lstrip (l ++ s) = lstrip s.
Proof.
  induction 1 as [|c l Hc _ IH]; simpl; [reflexivity|].
  rewrite Hc. exact IH.
Qed.

Lemma lstrip_app (a b : str) :
  lstrip (a ++ b) = match lstrip a with [] => lstrip b | _ => lstrip a ++ b end.
Proof.
  induction a as [|c a IH]; simpl.
  - destruct (lstrip b); reflexivity.
  - destruct (isspace c); [exact IH | reflexivity].
Qed.

Lemma all_space_rev (l : str) : all_space l -> all_space (rev l).
Proof. unfold all_space. apply Forall_rev. Qed.

Lemma rstrip_all_space (s r : str) : all_space r -> rstrip (s ++ r) = rstrip s.
Proof.
  intros Hr. unfold rstrip. rewrite rev_app_distr.
  rewrite lstrip_all_space by (apply all_space_rev; exact Hr). reflexivity.
Qed.

(** Padding a text with whitespace on either side does not change what
    [strip] returns. *)
Lemma strip_pad (l s r : str) :
  all_space l -> all_space r -> strip (l ++ s ++ r) = strip s.
Proof.
  intros Hl Hr. unfold strip. rewrite lstrip_all_space by exact Hl.
  rewrite lstrip_app. destruct (lstrip s) as [|c t] eqn:E.
  - assert (lstrip r = []) as ->; [|reflexivity].
    clear -Hr. induction Hr as [|c r Hc _ IH]; simpl; [reflexivity|].
    rewrite Hc. exact IH.
  - apply rstrip_all_space. exact Hr.
Qed.

Lemma char_eqb_LF (c : char) : char_eqb c LF = true <-> c = LF.
Proof. unfold char_eqb. apply N.eqb_eq. Qed.

Lemma lines_terminated_nonempty (m : str) : lines (m ++ [LF]) <> [].
Proof.
  destruct m as [|c m]; simpl; [discriminate|].
  destruct (char_eqb c LF); [discriminate|].
  destruct (lines (m ++ [LF])); discriminate.
Qed.

(** A text ended by a line feed splits independently of what follows. *)
Lemma lines_app_terminated (m rest : str) :
  lines ((m ++ [LF]) ++ rest) = lines (m ++ [LF]) ++ lines rest.
Proof.
  induction m as [|c m IH]; simpl; [reflexivity|].
  destruct (char_eqb c LF).
  - simpl. f_equal. exact IH.
  - rewrite IH. pose proof (lines_terminated_nonempty m) as Hne.
    destruct (lines (m ++ [LF])); [congruence | reflexivity].
Qed.

Lemma lines_single (m : str) : no_LF m -> lines (m ++ [LF]) = [m].
Proof.
  unfold no_LF. induction m as [|c m IH]; simpl; intros H; [reflexivity|].
  destruct (char_eqb c LF) eqn:E.
  - apply char_eqb_LF in E. exfalso. apply H. left. congruence.
  - rewrite IH by (intros Hin; apply H; right; exact Hin). reflexivity.
Qed.

Lemma no_LF_app (a b : str) : no_LF a -> no_LF b -> no_LF (a ++ b).
Proof.
  unfold no_LF. intros Ha Hb Hin. apply in_app_or in Hin. tauto.
Qed.

Lemma no_LF_uint (d : Decimal.uint) : no_LF (lit (NilEmpty.string_of_uint d)).
Proof.
  unfold no_LF, lit, LF.
  induction d; simpl; intros H; try tauto;
    destruct H as [H|H]; try discriminate; tauto.
Qed.

Lemma no_LF_str_of_int (n : Z) : no_LF (str_of_int n).
Proof.
  unfold str_of_int. destruct (Z.to_int n) as [d|d]; simpl.
  - destruct d; try apply no_LF_uint.
    unfold no_LF, lit, LF; simpl. intros [H|H]; [discriminate | tauto].
  - unfold NilZero.string_of_uint.
    assert (no_LF (lit (String "-"%char
              (match d with Decimal.Nil => "0"%string
                          | _ => NilEmpty.string_of_uint d end)))) as H.
    { change (no_LF ([45%N] ++ lit (match d with Decimal.Nil => "0"%string
                          | _ => NilEmpty.string_of_uint d end))).
      apply no_LF_app.
      - unfold no_LF, LF; simpl. intros [H|H]; [discriminate | tauto].
      - destruct d; try apply no_LF_uint.
        unfold no_LF, lit, LF; simpl. intros [H|H]; [discriminate | tauto]. }
    exact H.
Qed.

Lemma no_LF_join (l : list str) :
  Forall no_LF l -> no_LF (join (lit " ") l).
Proof.
  induction 1 as [|x l Hx Hl IH].
  - unfold no_LF; simpl; tauto.
  - destruct l as [|y l]; [exact Hx|].
    change (no_LF (x ++ lit " " ++ join (lit " ") (y :: l))).
    apply no_LF_app; [exact Hx|]. apply no_LF_app; [|exact IH].
    unfold no_LF, lit, LF; simpl. intros [H|H]; [discriminate | tauto].
Qed.

(** ** The paths through [test] *)

Section TestPaths.

Variable w : World.
Variable cmd : list str.
Variable expected : str.

Lemma test_launch_error (e : exn) :
  subprocess_run w (go_run cmd) = Raise e ->
  test cmd expected w = ([EvRun (go_run cmd)], Raise e).
Proof.
  intros H. unfold test, bind, run. rewrite H. reflexivity.
Qed.

Lemma test_bad_return_code (r : CompletedProcess) :
  subprocess_run w (go_run cmd) = Return r ->
  returncode r <> 0 ->
  test cmd expected w =
    ([EvRun (go_run cmd);
      EvPrint (msg_bad_return_code (command_line cmd) (returncode r))],
     Return 0).
Proof.
  intros H Hrc. unfold test, bind, run. rewrite H.
  apply Z.eqb_neq in Hrc. rewrite Hrc. reflexivity.
Qed.

Lemma test_stderr (r : CompletedProcess) :
  subprocess_run w (go_run cmd) = Return r ->
  returncode r = 0 ->
  stderr r <> [] ->
  test cmd expected w =
    ([EvRun (go_run cmd);
      EvPrint (msg_stderr (command_line cmd) (stderr r))],
     Return 0).
Proof.
  intros H Hrc Herr. unfold test, bind, run. rewrite H, Hrc.
  apply str_eqb_neq in Herr. rewrite Herr. reflexivity.
Qed.

Lemma test_missing (r : CompletedProcess) :
  subprocess_run w (go_run cmd) = Return r ->
  returncode r = 0 ->
  stderr r = [] ->
  open_read w (golden expected) = Raise FileNotFoundError ->
  test cmd expected w =
    ([EvRun (go_run cmd); EvOpen (golden expected);
      EvPrint (msg_missing (golden expected))],
     Return 0).
Proof.
  intros H Hrc Herr Ho.
  unfold test, bind, run, try_except_FileNotFoundError, open_file.
  cbv beta. rewrite H. cbv beta iota. rewrite Hrc, Herr.
  change (negb (0 =? 0)) with false.
  change (negb (str_eqb [] [])) with false.
  cbv beta iota. rewrite Ho. reflexivity.
Qed.

Lemma test_open_error (r : CompletedProcess) (e : exn) :
  subprocess_run w (go_run cmd) = Return r ->
  returncode r = 0 ->
  stderr r = [] ->
  open_read w (golden expected) = Raise e ->
  e <> FileNotFoundError ->
  test cmd expected w =
    ([EvRun (go_run cmd); EvOpen (golden expected)], Raise e).
Proof.
  intros H Hrc Herr Ho He.
  unfold test, bind, run, try_except_FileNotFoundError, open_file.
  cbv beta. rewrite H. cbv beta iota. rewrite Hrc, Herr.
  change (negb (0 =? 0)) with false.
  change (negb (str_eqb [] [])) with false.
  cbv beta iota. rewrite Ho. destruct e; simpl; congruence.
Qed.

Lemma test_differs (r : CompletedProcess) (g : str) :
  subprocess_run w (go_run cmd) = Return r ->
  returncode r = 0 ->
  stderr r = [] ->
  open_read w (golden expected) = Return g ->
  strip (stdout r) <> strip g ->
  test cmd expected w =
    ([EvRun (go_run cmd); EvOpen (golden expected);
      EvPrint (msg_stdout_differs (golden expected))],
     Return 0).
Proof.
  intros H Hrc Herr Ho Hne.
  unfold test, bind, run, try_except_FileNotFoundError, open_file.
  cbv beta. rewrite H. cbv beta iota. rewrite Hrc, Herr.
  change (negb (0 =? 0)) with false.
  change (negb (str_eqb [] [])) with false.
  cbv beta iota. rewrite Ho. apply str_eqb_neq in Hne.
  simpl. rewrite Hne. reflexivity.
Qed.

Lemma test_pass (r : CompletedProcess) (g : str) :
  subprocess_run w (go_run cmd) = Return r ->
  returncode r = 0 ->
  stderr r = [] ->
  open_read w (golden expected) = Return g ->
  strip (stdout r) = strip g ->
  test cmd expected w =
    ([EvRun (go_run cmd); EvOpen (golden expected)], Return 1).
Proof.
  intros H Hrc Herr Ho Heq.
  unfold test, bind, run, try_except_FileNotFoundError, open_file.
  cbv beta. rewrite H. cbv beta iota. rewrite Hrc, Herr.
  change (negb (0 =? 0)) with false.
  change (negb (str_eqb [] [])) with false.
  cbv beta iota. rewrite Ho. apply str_eqb_eq in Heq.
  simpl. rewrite Heq. reflexivity.
Qed.

Lemma exn_eq_dec (a b : exn) : {a = b} + {a <> b}.
Proof. decide equality. Qed.

Lemma str_eq_dec (a b : str) : {a = b} + {a <> b}.
Proof. apply list_eq_dec. apply N.eq_dec. Qed.

Lemma test_follows_path : test_path w cmd expected (test cmd expected w).
Proof.
  destruct (subprocess_run w (go_run cmd)) as [r|e] eqn:Hrun.
  2:{ rewrite (test_launch_error e Hrun). now constructor. }
  destruct (Z.eq_dec (returncode r) 0) as [Hrc|Hrc].
  2:{ rewrite (test_bad_return_code r Hrun Hrc). now constructor. }
  destruct (str_eq_dec (stderr r) []) as [Herr|Herr].
  2:{ rewrite (test_stderr r Hrun Hrc Herr). now constructor. }
  destruct (open_read w (golden expected)) as [g|e] eqn:Ho.
  - destruct (str_eq_dec (strip (stdout r)) (strip g)) as [Heq|Hne].
    + rewrite (test_pass r g Hrun Hrc Herr Ho Heq). now apply PathPass with r g.
    + rewrite (test_differs r g Hrun Hrc Herr Ho Hne).
      now apply PathDiffers with r g.
  - destruct (exn_eq_dec e FileNotFoundError) as [->|He].
    + rewrite (test_missing r Hrun Hrc Herr Ho). now apply PathMissing with r.
    + rewrite (test_open_error r e Hrun Hrc Herr Ho He).
      now apply PathOpenError with r.
Qed.

End TestPaths.

(** ** The per-case check *)

Ltac path_cases w cmd expected :=
  let P := fresh "P" in
  pose proof (test_follows_path w cmd expected) as P;
  inversion P as
    [ e He Heq
    | r' Hr Hrc Heq
    | r' Hr Hrc Herr Heq
    | r' Hr Hrc Herr Ho Heq
    | r' e Hr Hrc Herr Ho He Heq
    | r' g Hr Hrc Herr Ho Hne Heq
    | r' g Hr Hrc Herr Ho Hs Heq ];
  clear P; symmetry in Heq; try rewrite Heq in *.

Ltac same_reply :=
  repeat match goal with
  | H1 : subprocess_run ?w ?a = Return ?r1,
    H2 : subprocess_run ?w ?a = Return ?r2 |- _ =>
      assert (r1 = r2) by congruence; subst r2; clear H2
  | H1 : subprocess_run ?w ?a = Return _,
    H2 : subprocess_run ?w ?a = Raise _ |- _ => congruence
  | H1 : open_read ?w ?a = Return ?g1,
    H2 : open_read ?w ?a = Return ?g2 |- _ =>
      assert (g1 = g2) by congruence; subst g2; clear H2
  | H1 : open_read ?w ?a = Return _,
    H2 : open_read ?w ?a = Raise _ |- _ => congruence
  end.

(** C1, as stated, fails: with a golden file that exists but cannot be
    read (open raises PermissionError) the exit code is 0, stderr is
    empty, the file cannot be opened, and yet [test] does not return
    failure: the exception leaves it. *)
Lemma failure_iff_as_stated_refuted :
  ~ failure_iff_as_stated world_unreadable [lit "eg/eg1/eg1.go"] (lit "eg1.txt").
Proof.
  intros H.
  specialize (H (reply_ok (lit "hello" ++ [LF])) eq_refl).
  destruct H as [_ H].
  assert (snd (test [lit "eg/eg1/eg1.go"] (lit "eg1.txt") world_unreadable)
          = Return 0) as Habs.
  { apply H. right. right. left. exists PermissionError. reflexivity. }
  vm_compute in Habs. discriminate.
Qed.

(** C1, amended: for a launched child, [test] returns failure iff the exit
    code is non-zero, or stderr is non-empty, or the golden file is not
    found, or the trimmed texts differ; the checks are made in this order
    and the first one that fails decides the diagnostic (the golden file is
    not even opened when one of the first two fails); [test] returns
    success iff the exit code is 0, stderr is empty, the golden file was
    read and the trimmed texts are equal. *)
Theorem test_failure_iff (w : World) (cmd : list str) (expected : str)
    (r : CompletedProcess) :
  subprocess_run w (go_run cmd) = Return r ->
  (snd (test cmd expected w) = Return 0 <->
     (returncode r <> 0 \/
      stderr r <> [] \/
      open_read w (golden expected) = Raise FileNotFoundError \/
      exists g, open_read w (golden expected) = Return g /\
                strip (stdout r) <> strip g)) /\
  (snd (test cmd expected w) = Return 1 <->
     (returncode r = 0 /\ stderr r = [] /\
      exists g, open_read w (golden expected) = Return g /\
                strip (stdout r) = strip g)) /\
  (returncode r <> 0 ->
     test cmd expected w =
       ([EvRun (go_run cmd);
         EvPrint (msg_bad_return_code (command_line cmd) (returncode r))],
        Return 0)) /\
  (returncode r = 0 -> stderr r <> [] ->
     test cmd expected w =
       ([EvRun (go_run cmd);
         EvPrint (msg_stderr (command_line cmd) (stderr r))],
        Return 0)) /\
  (returncode r = 0 -> stderr r = [] ->
   open_read w (golden expected) = Raise FileNotFoundError ->
     test cmd expected w =
       ([EvRun (go_run cmd); EvOpen (golden expected);
         EvPrint (msg_missing (golden expected))],
        Return 0)) /\
  (returncode r = 0 -> stderr r = [] ->
   forall g, open_read w (golden expected) = Return g ->
             strip (stdout r) <> strip g ->
     test cmd expected w =
       ([EvRun (go_run cmd); EvOpen (golden expected);
         EvPrint (msg_stdout_differs (golden expected))],
        Return 0)).
Proof.
  intros Hrun. repeat split.
  - intros Hret. path_cases w cmd expected; same_reply;
      simpl in Hret; try discriminate; eauto 6.
  - intros Hc. path_cases w cmd expected; same_reply;
      simpl; try reflexivity.
    + destruct Hc as [?|[?|[?|[g [? ?]]]]]; congruence.
    + destruct Hc as [?|[?|[?|[g' [? ?]]]]]; congruence.
  - path_cases w cmd expected; same_reply;
      simpl in H; try discriminate; assumption.
  - path_cases w cmd expected; same_reply;
      simpl in H; try discriminate; assumption.
  - path_cases w cmd expected; same_reply;
      simpl in H; try discriminate; eauto.
  - intros (Hrc & Herr & g & Ho & Heq).
    rewrite (test_pass w cmd expected r g); auto.
  - intros Hrc. apply test_bad_return_code; assumption.
  - intros Hrc Herr. apply test_stderr; assumption.
  - intros Hrc Herr Ho. apply (test_missing w cmd expected r); assumption.
  - intros Hrc Herr g Ho Hne. apply (test_differs w cmd expected r g); assumption.
Qed.

Lemma test_failure_iff_witness :
  subprocess_run world_no_golden (go_run [lit "eg/eg1/eg1.go"])
    = Return (reply_ok (lit "hello" ++ [LF])) /\
  snd (test [lit "eg/eg1/eg1.go"] (lit "eg1.txt") world_no_golden) = Return 0.
Proof.
  split; [reflexivity|].
  apply (test_failure_iff world_no_golden [lit "eg/eg1/eg1.go"] (lit "eg1.txt")
           (reply_ok (lit "hello" ++ [LF])) eq_refl).
  right. right. left. reflexivity.
Defined.

(** ** Verdicts *)

Lemma test_returns_1_iff (w : World) (cmd : list str) (expected : str) :
  snd (test cmd expected w) = Return 1 <-> case_passes w (cmd, expected).
Proof.
  unfold case_passes; simpl. split.
  - intros Hret. path_cases w cmd expected; simpl in Hret;
      try discriminate. eauto 8.
  - intros (r & g & Hrun & Hrc & Herr & Ho & Hs).
    rewrite (test_pass w cmd expected r g); auto.
Qed.

Lemma test_returns_0_iff (w : World) (cmd : list str) (expected : str) :
  snd (test cmd expected w) = Return 0 <-> case_fails w (cmd, expected).
Proof.
  unfold case_fails; simpl. split.
  - intros Hret. path_cases w cmd expected; simpl in Hret;
      try discriminate; eauto 8.
  - intros (r & Hrun & Hc).
    path_cases w cmd expected; same_reply; simpl; try reflexivity.
    + destruct Hc as [?|[?|[?|[g [? ?]]]]]; congruence.
    + destruct Hc as [?|[?|[?|[g' [? ?]]]]]; congruence.
Qed.

Lemma test_returns_bit (w : World) (cmd : list str) (expected : str) (z : Z) :
  snd (test cmd expected w) = Return z -> z = 0 \/ z = 1.
Proof.
  intros Hret. path_cases w cmd expected; simpl in Hret;
    try discriminate; inversion Hret; auto.
Qed.

Lemma verdict_passes (w : World) (c : case) :
  case_passes w c -> verdict w c = 1.
Proof.
  destruct c as [cmd expected]. intros Hp.
  apply test_returns_1_iff in Hp. unfold verdict; simpl. now rewrite Hp.
Qed.

Lemma verdict_fails (w : World) (c : case) :
  case_fails w c -> verdict w c = 0.
Proof.
  destruct c as [cmd expected]. intros Hf.
  apply test_returns_0_iff in Hf. unfold verdict; simpl. now rewrite Hf.
Qed.

Lemma verdict_bit (w : World) (c : case) : verdict w c = 0 \/ verdict w c = 1.
Proof.
  unfold verdict. destruct (snd (test (fst c) (snd c) w)) as [z|e] eqn:E.
  - eapply test_returns_bit; eauto.
  - now left.
Qed.

Lemma checked_returns (w : World) (c : case) :
  case_passes w c \/ case_fails w c ->
  test (fst c) (snd c) w = (fst (test (fst c) (snd c) w), Return (verdict w c)).
Proof.
  destruct c as [cmd expected]; simpl. intros H.
  assert (exists z, snd (test cmd expected w) = Return z) as [z Hz].
  { destruct H as [H|H].
    - apply test_returns_1_iff in H. eauto.
    - apply test_returns_0_iff in H. eauto. }
  unfold verdict; simpl. rewrite Hz.
  destruct (test cmd expected w) as [t o]; simpl in *. now subst.
Qed.

Lemma sum_verdict_bounds (w : World) (cases : list case) :
  0 <= sum (map (verdict w) cases) <= Z.of_nat (List.length cases).
Proof.
  induction cases as [|c cases IH]; simpl; [lia|].
  destruct (verdict_bit w c); lia.
Qed.

Lemma sum_verdict_all_pass (w : World) (cases : list case) :
  (forall c, In c cases -> case_passes w c) ->
  sum (map (verdict w) cases) = Z.of_nat (List.length cases).
Proof.
  induction cases as [|c cases IH]; simpl; intros H; [reflexivity|].
  rewrite (verdict_passes w c) by (apply H; now left).
  rewrite IH by (intros c' Hc'; apply H; now right). lia.
Qed.

Lemma sum_verdict_some_fail (w : World) (cases : list case) :
  (exists c, In c cases /\ case_fails w c) ->
  sum (map (verdict w) cases) < Z.of_nat (List.length cases).
Proof.
  induction cases as [|c cases IH]; simpl; intros (c' & Hin & Hf);
    [contradiction|].
  destruct Hin as [->|Hin].
  - rewrite (verdict_fails w c' Hf).
    pose proof (sum_verdict_bounds w cases). lia.
  - assert (sum (map (verdict w) cases) < Z.of_nat (List.length cases))
      by (apply IH; eauto).
    destruct (verdict_bit w c); lia.
Qed.

(** ** The loop of [main] *)

Lemma loop_cons (w : World) (cmd : list str) (expected : str)
    (rest : list case) (total ok : Z) :
  loop ((cmd, expected) :: rest) total ok w =
    match test cmd expected w with
    | (t1, Return r) =>
        let (t2, o) := loop rest (total + 1) (ok + r) w in (t1 ++ t2, o)
    | (t1, Raise e) => (t1, Raise e)
    end.
Proof. reflexivity. Qed.

Lemma loop_app (w : World) (pre post : list case) (total ok : Z) :
  loop (pre ++ post) total ok w =
    match loop pre total ok w with
    | (t1, Return (total', ok')) =>
        let (t2, o) := loop post total' ok' w in (t1 ++ t2, o)
    | (t1, Raise e) => (t1, Raise e)
    end.
Proof.
  revert total ok. induction pre as [|[cmd expected] pre IH]; intros total ok.
  - simpl. destruct (loop post total ok w); reflexivity.
  - change (((cmd, expected) :: pre) ++ post)
      with ((cmd, expected) :: (pre ++ post)).
    rewrite !loop_cons. destruct (test cmd expected w) as [t1 [r|e]];
      [|reflexivity].
    rewrite IH. destruct (loop pre (total + 1) (ok + r) w) as [t2 [[t' k']|e]];
      [|reflexivity].
    destruct (loop post t' k' w) as [t3 o]. now rewrite app_assoc.
Qed.

Lemma loop_checked (w : World) (cases : list case) (total ok : Z) :
  (forall c, In c cases -> case_passes w c \/ case_fails w c) ->
  loop cases total ok w =
    (case_traces w cases,
     Return (total + Z.of_nat (List.length cases),
             ok + sum (map (verdict w) cases))).
Proof.
  revert total ok.
  induction cases as [|[cmd expected] cases IH]; intros total ok H.
  - simpl. unfold ret. now rewrite !Z.add_0_r.
  - rewrite loop_cons.
    pose proof (checked_returns w (cmd, expected)) as Hret.
    simpl fst in Hret; simpl snd in Hret.
    rewrite Hret by (apply H; now left).
    rewrite IH by (intros c Hc; apply H; now right).
    unfold case_traces, sum. cbn [map List.concat fold_right List.length].
    f_equal. f_equal. f_equal; lia.
Qed.

Lemma printed_app (t1 t2 : trace) : printed (t1 ++ t2) = printed t1 ++ printed t2.
Proof.
  induction t1 as [|[| | |s] t1 IH]; simpl; auto.
  rewrite IH. now rewrite <- app_assoc.
Qed.

Lemma prints_app (t1 t2 : trace) : prints (t1 ++ t2) = prints t1 ++ prints t2.
Proof.
  induction t1 as [|[| | |s] t1 IH]; simpl; auto. now rewrite IH.
Qed.

Lemma lines_printed_app (t : trace) (rest : str) :
  lines (printed t ++ rest) = lines (printed t) ++ lines rest.
Proof.
  induction t as [|[| | |s] t IH]; cbn [printed]; auto.
  replace ((s ++ [LF] ++ printed t) ++ rest)
    with ((s ++ [LF]) ++ (printed t ++ rest))
    by (now rewrite <- !app_assoc).
  replace (s ++ [LF] ++ printed t) with ((s ++ [LF]) ++ printed t)
    by (now rewrite <- app_assoc).
  rewrite !lines_app_terminated, IH. now rewrite app_assoc.
Qed.

Lemma main_on_returns (w : World) (cases : list case) (tr : trace)
    (total ok : Z) :
  loop cases 0 0 w = (tr, Return (total, ok)) ->
  main_on cases w = (EvChdir :: tr ++ [EvPrint (summary total ok)], Return tt).
Proof.
  intros H. unfold main_on, bind, chdir, print. rewrite H. reflexivity.
Qed.

(** ** The run as a whole *)

Lemma no_LF_summary (total ok : Z) : no_LF (summary total ok).
Proof.
  unfold summary, msg_fail, msg_all_ok.
  destruct (negb (total =? ok)).
  - apply no_LF_app; [unfold no_LF, LF; simpl; intuition discriminate|].
    apply no_LF_app; [apply no_LF_str_of_int|].
    apply no_LF_app; [unfold no_LF, LF; simpl; intuition discriminate|].
    apply no_LF_str_of_int.
  - apply no_LF_app; [unfold no_LF, LF; simpl; intuition discriminate|].
    apply no_LF_app; [apply no_LF_str_of_int|].
    unfold no_LF, LF; simpl; intuition discriminate.
Qed.

Lemma world_hello_all_pass (c : case) :
  In c test_cases -> case_passes world_hello c.
Proof.
  intros _. exists (reply_ok (lit "hello" ++ [LF])), (lit "hello").
  repeat split; reflexivity.
Qed.

Lemma world_no_golden_all_fail (c : case) :
  In c test_cases -> case_fails world_no_golden c.
Proof.
  intros _. exists (reply_ok (lit "hello" ++ [LF])).
  split; [reflexivity|]. right. right. left. reflexivity.
Qed.

(** C2: when every case is checked (none raises), [main] returns after
    printing, after the diagnostics of the loop, exactly one summary:
    a single line, the last of the output, which is [All {total} OK] when
    [ok = total] and [FAIL {ok}/{total}] otherwise.  If every case passes
    the three checks and matches its golden file, [ok = total] and the
    last line is [All {total} OK]; if some case fails a check,
    [ok < total] and the summary is [FAIL {ok}/{total}]. *)
Theorem main_summary (w : World) (cases : list case) :
  (forall c, In c cases -> case_passes w c \/ case_fails w c) ->
  exists tr ok,
    let total := Z.of_nat (List.length cases) in
    main_on cases w = (tr, Return tt) /\
    loop cases 0 0 w = (case_traces w cases, Return (total, ok)) /\
    prints tr = prints (case_traces w cases) ++ [summary total ok] /\
    printed tr = printed (case_traces w cases) ++ summary total ok ++ [LF] /\
    no_LF (summary total ok) /\
    last (lines (printed tr)) [] = summary total ok /\
    (ok = total ->
       summary total ok = lit "All " ++ str_of_int total ++ lit " OK") /\
    (ok <> total ->
       summary total ok =
         lit "FAIL " ++ str_of_int ok ++ lit "/" ++ str_of_int total) /\
    ((forall c, In c cases -> case_passes w c) ->
       ok = total /\
       last (lines (printed tr)) [] =
         lit "All " ++ str_of_int total ++ lit " OK") /\
    ((exists c, In c cases /\ case_fails w c) ->
       ok < total /\
       last (lines (printed tr)) [] =
         lit "FAIL " ++ str_of_int ok ++ lit "/" ++ str_of_int total).
Proof.
  intros Hchk.
  pose proof (loop_checked w cases 0 0 Hchk) as Hloop.
  rewrite !Z.add_0_l in Hloop.
  set (total := Z.of_nat (List.length cases)) in *.
  set (ok := sum (map (verdict w) cases)) in *.
  exists (EvChdir :: case_traces w cases ++ [EvPrint (summary total ok)]), ok.
  cbv zeta.
  assert (Hall : ok = total ->
            summary total ok = lit "All " ++ str_of_int total ++ lit " OK").
  { intros ->. unfold summary. now rewrite Z.eqb_refl. }
  assert (Hfail : ok <> total ->
            summary total ok =
              lit "FAIL " ++ str_of_int ok ++ lit "/" ++ str_of_int total).
  { intros Hne. unfold summary.
    assert ((total =? ok) = false) as -> by (apply Z.eqb_neq; congruence).
    reflexivity. }
  assert (Hlast : last (lines (printed
            (EvChdir :: case_traces w cases ++ [EvPrint (summary total ok)])))
            [] = summary total ok).
  { cbn [printed]. rewrite printed_app, lines_printed_app. cbn [printed].
    rewrite app_nil_r.
    rewrite (lines_single _ (no_LF_summary total ok)).
    apply last_last. }
  split; [apply main_on_returns; exact Hloop|].
  split; [exact Hloop|].
  split; [cbn [prints]; now rewrite prints_app|].
  split; [cbn [printed]; rewrite printed_app; cbn [printed];
          now rewrite app_nil_r|].
  split; [apply no_LF_summary|].
  split; [exact Hlast|].
  split; [exact Hall|].
  split; [exact Hfail|].
  split.
  - intros Hpass.
    assert (ok = total) as Heq by (apply sum_verdict_all_pass; exact Hpass).
    split; [exact Heq|]. rewrite Hlast. apply Hall; exact Heq.
  - intros Hsome.
    assert (ok < total) as Hlt by (apply sum_verdict_some_fail; exact Hsome).
    split; [exact Hlt|]. rewrite Hlast. apply Hfail. lia.
Qed.

Lemma main_summary_witness :
  (forall c, In c test_cases ->
     case_passes world_hello c \/ case_fails world_hello c) /\
  exists tr,
    main world_hello = (tr, Return tt) /\
    last (lines (printed tr)) [] = lit "All 8 OK".
Proof.
  assert (H : forall c, In c test_cases ->
            case_passes world_hello c \/ case_fails world_hello c)
    by (intros c Hc; left; apply world_hello_all_pass; exact Hc).
  split; [exact H|].
  destruct (main_summary world_hello test_cases H)
    as (tr & ok & Hmain & _ & _ & _ & _ & _ & _ & _ & Hpass & _).
  exists tr. split; [exact Hmain|].
  apply Hpass. apply world_hello_all_pass.
Defined.

(** C3: the loop takes the cases in the order of the list and, after any
    prefix of them has been checked, [total] is the number of cases taken
    (one more for every case), [ok] is the sum of their results, each 0
    or 1, and [0 <= ok <= total]; the run goes on from that tally with the
    remaining cases. *)
Theorem loop_tally (w : World) (pre post : list case) :
  (forall c, In c pre -> case_passes w c \/ case_fails w c) ->
  exists tr total ok,
    loop pre 0 0 w = (tr, Return (total, ok)) /\
    tr = case_traces w pre /\
    total = Z.of_nat (List.length pre) /\
    ok = sum (map (verdict w) pre) /\
    (forall c, In c pre -> verdict w c = 0 \/ verdict w c = 1) /\
    0 <= ok <= total /\
    loop (pre ++ post) 0 0 w =
      (let (tr', o) := loop post total ok w in (tr ++ tr', o)) /\
    (forall cmd expected rest,
       post = (cmd, expected) :: rest ->
       forall t1 r,
         test cmd expected w = (t1, Return r) ->
         (r = 0 \/ r = 1) /\
         loop (pre ++ [(cmd, expected)]) 0 0 w =
           (tr ++ t1, Return (total + 1, ok + r))).
Proof.
  intros Hchk.
  pose proof (loop_checked w pre 0 0 Hchk) as Hloop.
  rewrite !Z.add_0_l in Hloop.
  exists (case_traces w pre), (Z.of_nat (List.length pre)),
         (sum (map (verdict w) pre)).
  split; [exact Hloop|].
  split; [reflexivity|].
  split; [reflexivity|].
  split; [reflexivity|].
  split; [intros c _; apply verdict_bit|].
  split; [apply sum_verdict_bounds|].
  split.
  - rewrite loop_app, Hloop. reflexivity.
  - intros cmd expected rest _ t1 r Ht. split.
    + apply (test_returns_bit w cmd expected). now rewrite Ht.
    + rewrite loop_app, Hloop, loop_cons, Ht. simpl.
      now rewrite app_nil_r.
Qed.

Lemma loop_tally_witness :
  (forall c, In c test_cases ->
     case_passes world_no_golden c \/ case_fails world_no_golden c) /\
  exists tr, loop test_cases 0 0 world_no_golden = (tr, Return (8, 0)).
Proof.
  assert (H : forall c, In c test_cases ->
            case_passes world_no_golden c \/ case_fails world_no_golden c)
    by (intros c Hc; right; apply world_no_golden_all_fail; exact Hc).
  split; [exact H|].
  destruct (loop_tally world_no_golden test_cases [] H)
    as (tr & total & ok & Hloop & _ & Ht & Hok & _).
  exists tr. rewrite Hloop, Ht, Hok. reflexivity.
Defined.

(** ** Whitespace around the compared texts *)

Lemma ws_variant_strip (s s' : str) : ws_variant s s' -> strip s = strip s'.
Proof.
  intros (core & l & r & l' & r' & Hl & Hr & Hl' & Hr' & -> & ->).
  now rewrite !strip_pad.
Qed.

Lemma ws_variant_pad (s l r : str) :
  all_space l -> all_space r -> ws_variant s (l ++ s ++ r).
Proof.
  intros Hl Hr. exists s, [], [], l, r.
  repeat split; try assumption; try constructor.
  now rewrite app_nil_r.
Qed.

Lemma ws_variant_sym (s s' : str) : ws_variant s s' -> ws_variant s' s.
Proof.
  intros (core & l & r & l' & r' & Hl & Hr & Hl' & Hr' & Hs & Hs').
  exists core, l', r', l, r. auto 10.
Qed.

(** [test] reads the environment only through the answer to its one
    command and the answer for its one golden file, and the two texts only
    through [strip]. *)
Lemma test_ext (w1 w2 : World) (cmd : list str) (expected : str) :
  match subprocess_run w1 (go_run cmd), subprocess_run w2 (go_run cmd) with
  | Return r1, Return r2 =>
      returncode r1 = returncode r2 /\ stderr r1 = stderr r2 /\
      strip (stdout r1) = strip (stdout r2)
  | Raise e1, Raise e2 => e1 = e2
  | _, _ => False
  end ->
  match open_read w1 (golden expected), open_read w2 (golden expected) with
  | Return g1, Return g2 => strip g1 = strip g2
  | Raise e1, Raise e2 => e1 = e2
  | _, _ => False
  end ->
  test cmd expected w1 = test cmd expected w2.
Proof.
  intros Hrun Hopen.
  destruct (subprocess_run w1 (go_run cmd)) as [r1|e1] eqn:H1,
           (subprocess_run w2 (go_run cmd)) as [r2|e2] eqn:H2;
    try contradiction.
  2:{ subst e2. now rewrite (test_launch_error w1 cmd expected e1 H1),
                            (test_launch_error w2 cmd expected e1 H2). }
  destruct Hrun as (Hrc & Herr & Hs).
  destruct (Z.eq_dec (returncode r1) 0) as [Z1|Z1].
  2:{ rewrite (test_bad_return_code w1 cmd expected r1 H1 Z1).
      rewrite (test_bad_return_code w2 cmd expected r2 H2) by congruence.
      now rewrite Hrc. }
  destruct (str_eq_dec (stderr r1) []) as [E1|E1].
  2:{ rewrite (test_stderr w1 cmd expected r1 H1 Z1 E1).
      rewrite (test_stderr w2 cmd expected r2 H2) by congruence.
      now rewrite Herr. }
  assert (Z2 : returncode r2 = 0) by congruence.
  assert (E2 : stderr r2 = []) by congruence.
  destruct (open_read w1 (golden expected)) as [g1|x1] eqn:O1,
           (open_read w2 (golden expected)) as [g2|x2] eqn:O2;
    try contradiction.
  - destruct (str_eq_dec (strip (stdout r1)) (strip g1)) as [S|S].
    + rewrite (test_pass w1 cmd expected r1 g1 H1 Z1 E1 O1 S).
      rewrite (test_pass w2 cmd expected r2 g2 H2 Z2 E2 O2) by congruence.
      reflexivity.
    + rewrite (test_differs w1 cmd expected r1 g1 H1 Z1 E1 O1 S).
      rewrite (test_differs w2 cmd expected r2 g2 H2 Z2 E2 O2) by congruence.
      reflexivity.
  - subst x2. destruct (exn_eq_dec x1 FileNotFoundError) as [->|X].
    + now rewrite (test_missing w1 cmd expected r1 H1 Z1 E1 O1),
                  (test_missing w2 cmd expected r2 H2 Z2 E2 O2).
    + now rewrite (test_open_error w1 cmd expected r1 x1 H1 Z1 E1 O1 X),
                  (test_open_error w2 cmd expected r2 x1 H2 Z2 E2 O2 X).
Qed.

(** C4: changing the child's stdout and the golden text only by leading or
    trailing whitespace, added or removed, changes nothing in what [test]
    does: same result, same diagnostics.  A child that prints [hello] and a
    line feed passes against a golden file holding [hello]. *)
Theorem test_whitespace_insensitive (w : World) (cmd : list str)
    (expected : str) (out out' g g' : str) :
  ws_variant out out' ->
  ws_variant g g' ->
  test cmd expected (with_texts w out g) =
    test cmd expected (with_texts w out' g') /\
  (forall rc err,
     subprocess_run w (go_run cmd) = Return (mkReply rc out err) ->
     open_read w (golden expected) = Return g ->
     test cmd expected w
       = test cmd expected (with_texts w out' g')) /\
  (subprocess_run w (go_run cmd) = Return (mkReply 0 (lit "hello" ++ [LF]) []) ->
   open_read w (golden expected) = Return (lit "hello") ->
   snd (test cmd expected w) = Return 1).
Proof.
  intros Hout Hg.
  apply ws_variant_strip in Hout. apply ws_variant_strip in Hg.
  split; [|split].
  - apply test_ext; cbn [subprocess_run open_read with_texts].
    + destruct (subprocess_run w (go_run cmd)); auto.
    + destruct (open_read w (golden expected)); auto.
  - intros rc err Hrun Ho.
    apply test_ext; cbn [subprocess_run open_read with_texts].
    + rewrite Hrun. auto.
    + rewrite Ho. exact Hg.
  - intros Hrun Ho.
    rewrite (test_pass w cmd expected _ _ Hrun eq_refl eq_refl Ho);
      reflexivity.
Qed.

Lemma test_whitespace_insensitive_witness :
  ws_variant (lit "hello" ++ [LF]) (lit "  hello") /\
  ws_variant (lit "hello") (lit "hello" ++ [LF; LF]) /\
  snd (test [lit "eg/eg1/eg1.go"] (lit "eg1.txt")
         (with_texts world_hello (lit "  hello") (lit "hello" ++ [LF; LF])))
    = Return 1.
Proof.
  assert (H1 : ws_variant (lit "hello" ++ [LF]) (lit "  hello")).
  { exists (lit "hello"), [], [LF], (lit "  "), [].
    repeat split; try constructor; try reflexivity;
      repeat constructor. }
  assert (H2 : ws_variant (lit "hello") (lit "hello" ++ [LF; LF])).
  { exists (lit "hello"), [], [], [], [LF; LF].
    repeat split; try constructor; try reflexivity;
      repeat constructor. }
  split; [exact H1|]. split; [exact H2|].
  destruct (test_whitespace_insensitive world_hello [lit "eg/eg1/eg1.go"]
              (lit "eg1.txt") _ _ _ _ H1 H2) as (_ & Heq & Hpass).
  rewrite <- (Heq 0 [] eq_refl eq_refl).
  apply Hpass; reflexivity.
Defined.

(** ** Failure modes of the per-case check *)

(** C5: with exit code 0, empty stderr and no golden file, [test] does not
    raise: it prints [FAIL missing: rdata/<name>], returns 0, and the loop
    goes on with the next case, [ok] unchanged. *)
Theorem test_missing_golden (w : World) (cmd : list str) (expected : str)
    (r : CompletedProcess) (rest : list case) (total ok : Z) :
  subprocess_run w (go_run cmd) = Return r ->
  returncode r = 0 ->
  stderr r = [] ->
  open_read w (golden expected) = Raise FileNotFoundError ->
  test cmd expected w =
    ([EvRun (go_run cmd); EvOpen (lit "rdata/" ++ expected);
      EvPrint (lit "FAIL missing: rdata/" ++ expected)],
     Return 0) /\
  printed (fst (test cmd expected w)) =
    lit "FAIL missing: rdata/" ++ expected ++ [LF] /\
  loop ((cmd, expected) :: rest) total ok w =
    (let (t2, o) := loop rest (total + 1) ok w in
     (fst (test cmd expected w) ++ t2, o)).
Proof.
  intros Hrun Hrc Herr Ho.
  pose proof (test_missing w cmd expected r Hrun Hrc Herr Ho) as Ht.
  split; [exact Ht|]. split.
  - rewrite Ht. reflexivity.
  - rewrite loop_cons, Ht. cbn [fst]. now rewrite Z.add_0_r.
Qed.

Lemma test_missing_golden_witness :
  test [lit "eg/eg1/eg1.go"] (lit "eg1.txt") world_no_golden =
    ([EvRun [lit "go"; lit "run"; lit "eg/eg1/eg1.go"];
      EvOpen (lit "rdata/eg1.txt");
      EvPrint (lit "FAIL missing: rdata/eg1.txt")],
     Return 0).
Proof.
  apply (test_missing_golden world_no_golden [lit "eg/eg1/eg1.go"]
           (lit "eg1.txt") (reply_ok (lit "hello" ++ [LF])) [] 0 0);
    reflexivity.
Defined.

Lemma startswith_app (s t : str) : startswith s (s ++ t) = true.
Proof.
  induction s as [|c s IH]; simpl; [reflexivity|].
  unfold char_eqb. now rewrite N.eqb_refl, IH.
Qed.

Lemma contains_suffix (p s : str) : contains s (p ++ s) = true.
Proof.
  induction p as [|c p IH]; simpl.
  - destruct s; simpl; [reflexivity|].
    rewrite <- (app_nil_r s) at 2.
    unfold char_eqb. now rewrite N.eqb_refl, startswith_app.
  - rewrite IH. apply orb_true_r.
Qed.

(** C6, as stated, fails: a child that exits with code 1 and writes
    [boom] to stderr gets the return-code diagnostic, in which the stderr
    text does not occur. *)
Lemma stderr_reported_as_stated_refuted :
  ~ stderr_reported_as_stated
      (world_reply (mkReply 1 [] (lit "boom")))
      [lit "eg/eg1/eg1.go"] (lit "eg1.txt").
Proof.
  intros H.
  destruct (H (mkReply 1 [] (lit "boom")) eq_refl) as (_ & msg & Hp & Hc).
  { discriminate. }
  vm_compute in Hp. inversion Hp; subst msg.
  vm_compute in Hc. discriminate.
Qed.

(** C6, amended: a child that writes anything to stderr makes the case a
    failure; when its exit code is 0 the diagnostic printed is the stderr
    one and ends with the stderr text, whatever stdout holds; when its exit
    code is not 0 the diagnostic is the return-code one. *)
Theorem stderr_counts_as_failure (w : World) (cmd : list str)
    (expected : str) (r : CompletedProcess) :
  subprocess_run w (go_run cmd) = Return r ->
  stderr r <> [] ->
  snd (test cmd expected w) = Return 0 /\
  (returncode r = 0 ->
     prints (fst (test cmd expected w)) =
       [lit "FAIL stderr " ++ DQUOTE ++ command_line cmd ++ DQUOTE
          ++ lit ": " ++ stderr r] /\
     contains (stderr r)
       (lit "FAIL stderr " ++ DQUOTE ++ command_line cmd ++ DQUOTE
          ++ lit ": " ++ stderr r) = true) /\
  (returncode r <> 0 ->
     prints (fst (test cmd expected w)) =
       [lit "FAIL bad return code " ++ DQUOTE ++ command_line cmd ++ DQUOTE
          ++ lit ": " ++ str_of_int (returncode r)]).
Proof.
  intros Hrun Herr. split; [|split].
  - destruct (Z.eq_dec (returncode r) 0) as [Hrc|Hrc].
    + now rewrite (test_stderr w cmd expected r Hrun Hrc Herr).
    + now rewrite (test_bad_return_code w cmd expected r Hrun Hrc).
  - intros Hrc. rewrite (test_stderr w cmd expected r Hrun Hrc Herr).
    split; [reflexivity|].
    rewrite !app_assoc. apply contains_suffix.
  - intros Hrc. now rewrite (test_bad_return_code w cmd expected r Hrun Hrc).
Qed.

Lemma stderr_counts_as_failure_witness :
  snd (test [lit "eg/eg1/eg1.go"] (lit "eg1.txt")
         (world_reply (mkReply 0 (lit "hello") (lit "warning: x"))))
    = Return 0.
Proof.
  apply (stderr_counts_as_failure
           (world_reply (mkReply 0 (lit "hello") (lit "warning: x")))
           [lit "eg/eg1/eg1.go"] (lit "eg1.txt")
           (mkReply 0 (lit "hello") (lit "warning: x")) eq_refl).
  discriminate.
Defined.

Lemma no_LF_command_line (cmd : list str) :
  Forall no_LF cmd -> no_LF (command_line cmd).
Proof.
  intros H. unfold command_line, go_run. apply no_LF_join.
  repeat constructor; try exact H;
    unfold no_LF, LF; simpl; intuition discriminate.
Qed.

Ltac no_LF_literal := unfold no_LF, LF; simpl; intuition discriminate.

Lemma no_LF_msg_bad_return_code (cmd : list str) (rc : Z) :
  Forall no_LF cmd -> no_LF (msg_bad_return_code (command_line cmd) rc).
Proof.
  intros H. unfold msg_bad_return_code, DQUOTE.
  apply no_LF_app; [no_LF_literal|].
  apply no_LF_app; [no_LF_literal|].
  apply no_LF_app; [apply no_LF_command_line; exact H|].
  apply no_LF_app; [no_LF_literal|].
  apply no_LF_app; [no_LF_literal|].
  apply no_LF_str_of_int.
Qed.

Lemma no_LF_msg_stderr (cmd : list str) (err : str) :
  Forall no_LF cmd -> no_LF err -> no_LF (msg_stderr (command_line cmd) err).
Proof.
  intros H He. unfold msg_stderr, DQUOTE.
  apply no_LF_app; [no_LF_literal|].
  apply no_LF_app; [no_LF_literal|].
  apply no_LF_app; [apply no_LF_command_line; exact H|].
  apply no_LF_app; [no_LF_literal|].
  apply no_LF_app; [no_LF_literal|].
  exact He.
Qed.

Lemma no_LF_golden (expected : str) : no_LF expected -> no_LF (golden expected).
Proof. intros H. unfold golden. apply no_LF_app; [no_LF_literal | exact H]. Qed.

Lemma no_LF_msg_missing (expected : str) :
  no_LF expected -> no_LF (msg_missing (golden expected)).
Proof.
  intros H. unfold msg_missing.
  apply no_LF_app; [no_LF_literal | now apply no_LF_golden].
Qed.

Lemma no_LF_msg_stdout_differs (expected : str) :
  no_LF expected -> no_LF (msg_stdout_differs (golden expected)).
Proof.
  intros H. unfold msg_stdout_differs.
  apply no_LF_app; [no_LF_literal | now apply no_LF_golden].
Qed.

(** C7, as stated, fails: a child that exits 0 and writes two lines to
    stderr makes [test] print a diagnostic of two lines. *)
Lemma one_line_as_stated_refuted :
  ~ one_line_as_stated
      (world_reply (mkReply 0 [] (lit "a" ++ [LF] ++ lit "b")))
      [lit "eg/eg1/eg1.go"] (lit "eg1.txt").
Proof.
  intros [H _]. specialize (H eq_refl). vm_compute in H. discriminate.
Qed.

(** C7, amended: a failing case makes exactly one [print] call, whose
    message names the first check that failed; that message is exactly one
    line of output when the command, the file name and the captured stderr
    hold no line feed (the stderr diagnostic carries the stderr text as it
    is); a passing case prints nothing. *)
Theorem test_one_diagnostic (w : World) (cmd : list str) (expected : str) :
  (snd (test cmd expected w) = Return 0 ->
   exists r msg,
     subprocess_run w (go_run cmd) = Return r /\
     prints (fst (test cmd expected w)) = [msg] /\
     printed (fst (test cmd expected w)) = msg ++ [LF] /\
     ((returncode r <> 0 /\
       msg = msg_bad_return_code (command_line cmd) (returncode r)) \/
      (returncode r = 0 /\ stderr r <> [] /\
       msg = msg_stderr (command_line cmd) (stderr r)) \/
      (returncode r = 0 /\ stderr r = [] /\
       open_read w (golden expected) = Raise FileNotFoundError /\
       msg = msg_missing (golden expected)) \/
      (returncode r = 0 /\ stderr r = [] /\
       (exists g, open_read w (golden expected) = Return g /\
                  strip (stdout r) <> strip g) /\
       msg = msg_stdout_differs (golden expected))) /\
     (Forall no_LF cmd -> no_LF expected -> no_LF (stderr r) ->
      lines (printed (fst (test cmd expected w))) = [msg])) /\
  (snd (test cmd expected w) = Return 1 ->
   prints (fst (test cmd expected w)) = [] /\
   printed (fst (test cmd expected w)) = []).
Proof.
  split.
  - intros Hret. path_cases w cmd expected; simpl in Hret;
      try discriminate; exists r'; eexists;
      (split; [eassumption|]); (split; [reflexivity|]);
      (split; [reflexivity|]); (split; [|intros Hc He Hs; apply lines_single]).
    + left. auto.
    + now apply no_LF_msg_bad_return_code.
    + right. left. auto.
    + now apply no_LF_msg_stderr.
    + right. right. left. auto.
    + now apply no_LF_msg_missing.
    + right. right. right. eauto 8.
    + now apply no_LF_msg_stdout_differs.
  - intros Hret. path_cases w cmd expected; simpl in Hret;
      try discriminate. split; reflexivity.
Qed.

Lemma test_one_diagnostic_witness :
  exists msg,
    lines (printed (fst (test [lit "eg/eg1/eg1.go"] (lit "eg1.txt")
                           world_no_golden))) = [msg].
Proof.
  destruct (test_one_diagnostic world_no_golden [lit "eg/eg1/eg1.go"]
              (lit "eg1.txt")) as [H _].
  destruct (H eq_refl) as (r & msg & Hrun & _ & _ & _ & Hl).
  exists msg. apply Hl.
  - repeat constructor. no_LF_literal.
  - no_LF_literal.
  - vm_compute in Hrun. inversion Hrun. no_LF_literal.
Defined.

(** C8, as stated, fails: with a golden file that cannot be read the
    child is launched and yet PermissionError leaves [test]. *)
Lemma raises_iff_as_stated_refuted :
  ~ raises_iff_as_stated world_unreadable [lit "eg/eg1/eg1.go"] (lit "eg1.txt").
Proof.
  intros [H _].
  destruct H as [e He]; [exists PermissionError; reflexivity|].
  vm_compute in He. discriminate.
Qed.

(** C8, amended: an exception leaves [test] iff the child cannot be
    launched, or, after exit code 0 and empty stderr, opening or reading the
    golden file raises something other than FileNotFoundError; the
    exception that leaves is the one raised there.  A non-zero exit code,
    stderr output, a missing golden file and a mismatch are reported with
    one diagnostic and returned as 0. *)
Theorem test_raises_iff (w : World) (cmd : list str) (expected : str) :
  ((exists e, snd (test cmd expected w) = Raise e) <->
   ((exists e, subprocess_run w (go_run cmd) = Raise e) \/
    (exists r e,
       subprocess_run w (go_run cmd) = Return r /\
       returncode r = 0 /\ stderr r = [] /\
       open_read w (golden expected) = Raise e /\
       e <> FileNotFoundError))) /\
  (forall e, subprocess_run w (go_run cmd) = Raise e ->
             test cmd expected w = ([EvRun (go_run cmd)], Raise e)) /\
  (forall r e,
     subprocess_run w (go_run cmd) = Return r ->
     returncode r = 0 -> stderr r = [] ->
     open_read w (golden expected) = Raise e -> e <> FileNotFoundError ->
     snd (test cmd expected w) = Raise e) /\
  (case_fails w (cmd, expected) ->
     snd (test cmd expected w) = Return 0 /\
     exists msg, prints (fst (test cmd expected w)) = [msg]).
Proof.
  split; [split|split; [|split]].
  - intros [x Hx]. path_cases w cmd expected; simpl in Hx;
      try discriminate; eauto 10.
  - intros [[e He]|(r & e & Hrun & Hrc & Herr & Ho & Hne)].
    + rewrite (test_launch_error w cmd expected e He). simpl. eauto.
    + rewrite (test_open_error w cmd expected r e Hrun Hrc Herr Ho Hne).
      simpl. eauto.
  - intros e He. now apply test_launch_error.
  - intros r e Hrun Hrc Herr Ho Hne.
    now rewrite (test_open_error w cmd expected r e Hrun Hrc Herr Ho Hne).
  - intros Hf. apply test_returns_0_iff in Hf. split; [exact Hf|].
    path_cases w cmd expected; simpl in Hf; try discriminate;
      eexists; reflexivity.
Qed.

Lemma test_raises_iff_witness :
  snd (test [lit "eg/eg1/eg1.go"] (lit "eg1.txt") world_no_go)
    = Raise FileNotFoundError /\
  snd (test [lit "eg/eg1/eg1.go"] (lit "eg1.txt") world_no_golden) = Return 0.
Proof.
  destruct (test_raises_iff world_no_go [lit "eg/eg1/eg1.go"] (lit "eg1.txt"))
    as (_ & Hl & _).
  destruct (test_raises_iff world_no_golden [lit "eg/eg1/eg1.go"]
              (lit "eg1.txt")) as (_ & _ & _ & Hf).
  split.
  - rewrite (Hl FileNotFoundError eq_refl). reflexivity.
  - apply Hf. apply (world_no_golden_all_fail _ (or_introl eq_refl)).
Defined.

(** C9, as stated, fails: when the child exits with code 1 [test] returns
    before it opens the golden file, so no file is read. *)
Lemma effects_as_stated_refuted :
  ~ effects_as_stated (world_reply (mkReply 1 [] []))
      [lit "eg/eg1/eg1.go"] (lit "eg1.txt").
Proof.
  intros (_ & H & _). vm_compute in H. discriminate.
Qed.

(** C9, amended: every call of [test] calls [subprocess.run] exactly once,
    on [go run] followed by the command; it opens at most one file, the
    golden file, and opens it iff the child was launched, exited with
    code 0 and wrote nothing to stderr; it prints exactly one diagnostic
    when it returns failure and nothing otherwise. *)
Theorem test_effects (w : World) (cmd : list str) (expected : str) :
  spawns (fst (test cmd expected w)) = [go_run cmd] /\
  (opens (fst (test cmd expected w)) = [] \/
   opens (fst (test cmd expected w)) = [golden expected]) /\
  (opens (fst (test cmd expected w)) = [golden expected] <->
   exists r, subprocess_run w (go_run cmd) = Return r /\
             returncode r = 0 /\ stderr r = []) /\
  (snd (test cmd expected w) = Return 0 ->
   exists msg, prints (fst (test cmd expected w)) = [msg]) /\
  (snd (test cmd expected w) <> Return 0 ->
   prints (fst (test cmd expected w)) = []).
Proof.
  repeat split.
  - path_cases w cmd expected; reflexivity.
  - path_cases w cmd expected; simpl; auto.
  - intros Hopens. path_cases w cmd expected; simpl in Hopens;
      try discriminate; eauto.
  - intros (r & Hrun & Hrc0 & Herr0).
    path_cases w cmd expected; same_reply; simpl; try reflexivity;
      congruence.
  - intros Hret. path_cases w cmd expected; simpl in Hret;
      try discriminate; simpl; eauto.
  - intros Hret. path_cases w cmd expected; simpl in Hret;
      try congruence; reflexivity.
Qed.

Lemma test_effects_witness :
  opens (fst (test [lit "eg/eg1/eg1.go"] (lit "eg1.txt") world_hello))
    = [lit "rdata/eg1.txt"].
Proof.
  apply (test_effects world_hello [lit "eg/eg1/eg1.go"] (lit "eg1.txt")).
  exists (reply_ok (lit "hello" ++ [LF])). repeat split; reflexivity.
Defined.

(** ** Two runs in the same environment *)

Lemma loop_ext (w1 w2 : World) (cases : list case) (total ok : Z) :
  (forall c, In c cases ->
     subprocess_run w1 (go_run (fst c)) = subprocess_run w2 (go_run (fst c)) /\
     open_read w1 (golden (snd c)) = open_read w2 (golden (snd c))) ->
  loop cases total ok w1 = loop cases total ok w2.
Proof.
  revert total ok.
  induction cases as [|[cmd expected] cases IH]; intros total ok H;
    [reflexivity|].
  rewrite !loop_cons.
  destruct (H (cmd, expected) (or_introl eq_refl)) as [Hr Ho]; simpl in Hr, Ho.
  assert (test cmd expected w1 = test cmd expected w2) as ->.
  { apply test_ext.
    - rewrite Hr. destruct (subprocess_run w2 (go_run cmd)); auto.
    - rewrite Ho. destruct (open_read w2 (golden expected)); auto. }
  destruct (test cmd expected w2) as [t1 [r|e]]; [|reflexivity].
  rewrite IH by (intros c Hc; apply H; now right). reflexivity.
Qed.

(** C10: two runs in which every case's child gives the same answer (exit
    code, stderr, stdout, or the same launch error) and every golden file
    reads the same do the same thing: same effects in the same order, same
    outcome, and so the same printed output. *)
Theorem main_deterministic (w1 w2 : World) (cases : list case) :
  (forall c, In c cases ->
     subprocess_run w1 (go_run (fst c)) = subprocess_run w2 (go_run (fst c)) /\
     open_read w1 (golden (snd c)) = open_read w2 (golden (snd c))) ->
  main_on cases w1 = main_on cases w2 /\
  printed (fst (main_on cases w1)) = printed (fst (main_on cases w2)).
Proof.
  intros H.
  assert (main_on cases w1 = main_on cases w2) as Heq.
  { unfold main_on, bind, chdir. rewrite (loop_ext w1 w2 cases 0 0 H).
    destruct (loop cases 0 0 w2) as [t [[total ok]|e]]; reflexivity. }
  split; [exact Heq | now rewrite Heq].
Qed.

Lemma main_deterministic_witness :
  printed (fst (main world_hello)) = printed (fst (main world_hello_strict)).
Proof.
  apply (main_deterministic world_hello world_hello_strict test_cases).
  intros c Hc. unfold test_cases in Hc. simpl in Hc.
  repeat (destruct Hc as [<-|Hc]; [split; reflexivity|]).
  contradiction.
Defined.

(** ** Further properties: what one check leaves in the trace *)

Lemma spawns_app (t1 t2 : trace) : spawns (t1 ++ t2) = spawns t1 ++ spawns t2.
Proof.
  induction t1 as [|[| | |s] t1 IH]; simpl; auto. now rewrite IH.
Qed.

Lemma opens_app (t1 t2 : trace) : opens (t1 ++ t2) = opens t1 ++ opens t2.
Proof.
  induction t1 as [|[| | |s] t1 IH]; simpl; auto. now rewrite IH.
Qed.

Lemma test_spawns (w : World) (cmd : list str) (expected : str) :
  spawns (fst (test cmd expected w)) = [go_run cmd].
Proof. path_cases w cmd expected; reflexivity. Qed.

Lemma test_opens_golden (w : World) (cmd : list str) (expected f : str) :
  In f (opens (fst (test cmd expected w))) -> f = golden expected.
Proof.
  intros Hin. path_cases w cmd expected; simpl in Hin;
    intuition congruence.
Qed.

Lemma test_prints_prefixed (w : World) (cmd : list str) (expected m : str) :
  In m (prints (fst (test cmd expected w))) ->
  startswith (lit "FAIL ") m = true.
Proof.
  intros Hin. path_cases w cmd expected; simpl in Hin;
    try contradiction; destruct Hin as [<-|[]]; reflexivity.
Qed.

Lemma test_raise_silent (w : World) (cmd : list str) (expected : str)
    (x : exn) :
  snd (test cmd expected w) = Raise x ->
  prints (fst (test cmd expected w)) = [].
Proof.
  intros Hret. path_cases w cmd expected; simpl in Hret;
    try discriminate; reflexivity.
Qed.

Lemma passes_silent (w : World) (c : case) :
  case_passes w c -> prints (fst (test (fst c) (snd c) w)) = [].
Proof.
  destruct c as [cmd expected]. intros Hp. apply test_returns_1_iff in Hp.
  simpl. path_cases w cmd expected; simpl in Hp; try discriminate.
  reflexivity.
Qed.

Lemma fails_one_message (w : World) (c : case) :
  case_fails w c ->
  exists m, prints (fst (test (fst c) (snd c) w)) = [m] /\
            startswith (lit "FAIL ") m = true.
Proof.
  destruct c as [cmd expected]. intros Hf. apply test_returns_0_iff in Hf.
  simpl. path_cases w cmd expected; simpl in Hf; try discriminate;
    eexists; split; reflexivity.
Qed.

Lemma printed_of_prints (t : trace) :
  printed t = List.concat (map (fun m => m ++ [LF]) (prints t)).
Proof.
  induction t as [|[| | |s] t IH]; simpl; auto.
  rewrite IH. now rewrite <- app_assoc.
Qed.

(** ** Further properties: the loop, case by case *)

Lemma case_traces_app (w : World) (l1 l2 : list case) :
  case_traces w (l1 ++ l2) = case_traces w l1 ++ case_traces w l2.
Proof.
  unfold case_traces. now rewrite map_app, concat_app.
Qed.

Lemma case_traces_cons (w : World) (c : case) (l : list case) :
  case_traces w (c :: l) = fst (test (fst c) (snd c) w) ++ case_traces w l.
Proof. reflexivity. Qed.

Lemma spawns_case_traces (w : World) (l : list case) :
  spawns (case_traces w l) = argvs l.
Proof.
  induction l as [|[cmd expected] l IH]; [reflexivity|].
  rewrite case_traces_cons, spawns_app, IH. simpl fst; simpl snd.
  now rewrite test_spawns.
Qed.

Lemma opens_case_traces (w : World) (l : list case) (f : str) :
  In f (opens (case_traces w l)) ->
  exists c, In c l /\ f = golden (snd c).
Proof.
  induction l as [|[cmd expected] l IH]; [contradiction|].
  rewrite case_traces_cons, opens_app. intros Hin.
  apply in_app_or in Hin. destruct Hin as [Hin|Hin].
  - exists (cmd, expected). split; [now left|].
    now apply (test_opens_golden w cmd expected).
  - destruct (IH Hin) as (c & Hc & ->). exists c. split; [now right | easy].
Qed.

Lemma prints_case_traces_prefixed (w : World) (l : list case) (m : str) :
  In m (prints (case_traces w l)) -> startswith (lit "FAIL ") m = true.
Proof.
  induction l as [|[cmd expected] l IH]; [contradiction|].
  rewrite case_traces_cons, prints_app. intros Hin.
  apply in_app_or in Hin. destruct Hin as [Hin|Hin]; [|now apply IH].
  now apply (test_prints_prefixed w cmd expected).
Qed.

Lemma loop_returns_checked (w : World) (cases : list case) (total ok : Z)
    (tr : trace) (x : Z * Z) :
  loop cases total ok w = (tr, Return x) ->
  forall c, In c cases -> case_passes w c \/ case_fails w c.
Proof.
  revert total ok tr.
  induction cases as [|[cmd expected] cases IH]; intros total ok tr H c Hc;
    [contradiction|].
  rewrite loop_cons in H.
  destruct (test cmd expected w) as [t1 [r|e]] eqn:Ht; [|discriminate].
  destruct Hc as [<-|Hc].
  - assert (Hs : snd (test cmd expected w) = Return r) by now rewrite Ht.
    destruct (test_returns_bit w cmd expected r Hs) as [->| ->].
    + right. now apply test_returns_0_iff.
    + left. now apply test_returns_1_iff.
  - destruct (loop cases (total + 1) (ok + r) w) as [t2 [y|e]] eqn:Hl;
      [|discriminate].
    inversion H; subst. eapply IH; eauto.
Qed.

Lemma loop_trace_prefix (w : World) (cases : list case) (total ok : Z) :
  exists n, fst (loop cases total ok w) = case_traces w (firstn n cases).
Proof.
  revert total ok.
  induction cases as [|[cmd expected] cases IH]; intros total ok.
  - exists 0%nat. reflexivity.
  - rewrite loop_cons.
    destruct (test cmd expected w) as [t1 [r|e]] eqn:Ht.
    + destruct (IH (total + 1) (ok + r)) as [n Hn].
      exists (S n). cbn [firstn]. rewrite case_traces_cons.
      simpl fst at 2; simpl snd. rewrite Ht. cbn [fst].
      destruct (loop cases (total + 1) (ok + r) w) as [t2 o].
      simpl in *. now rewrite Hn.
    + exists 1%nat. cbn [firstn]. rewrite case_traces_cons.
      simpl fst at 2; simpl snd. rewrite Ht. simpl.
      unfold case_traces. simpl. now rewrite app_nil_r.
Qed.

Lemma main_on_raises (w : World) (cases : list case) (tr : trace) (e : exn) :
  loop cases 0 0 w = (tr, Raise e) ->
  main_on cases w = (EvChdir :: tr, Raise e).
Proof.
  intros H. unfold main_on, bind, chdir. rewrite H. reflexivity.
Qed.

(** [main] either stops at a case that raises, having gone through the
    cases before it, or goes through them all and prints the summary. *)
Lemma main_on_cases (w : World) (cases : list case) :
  (exists n x,
     main_on cases w = (EvChdir :: case_traces w (firstn n cases), Raise x)) \/
  ((forall c, In c cases -> case_passes w c \/ case_fails w c) /\
   loop cases 0 0 w =
     (case_traces w cases,
      Return (Z.of_nat (List.length cases), sum (map (verdict w) cases))) /\
   main_on cases w =
     (EvChdir :: case_traces w cases ++
        [EvPrint (summary (Z.of_nat (List.length cases))
                          (sum (map (verdict w) cases)))],
      Return tt)).
Proof.
  destruct (loop_trace_prefix w cases 0 0) as [n Hn].
  destruct (loop cases 0 0 w) as [tr [[total ok]|x]] eqn:Hl; simpl in Hn.
  - right.
    pose proof (loop_returns_checked w cases 0 0 tr (total, ok) Hl) as Hchk.
    pose proof (loop_checked w cases 0 0 Hchk) as Hl'.
    rewrite !Z.add_0_l in Hl'.
    split; [exact Hchk|]. split; [now rewrite <- Hl|].
    now apply main_on_returns.
  - left. exists n, x. rewrite (main_on_raises w cases tr x Hl). now rewrite Hn.
Qed.

(** ** Further properties of [main] *)

(** X1: when a case raises after the cases before it were checked, [main]
    stops there: the exception leaves [main], the later cases are never
    run, no summary is printed, and what was printed is the diagnostics of
    the cases before. *)
Theorem main_aborts_at_first_raise (w : World) (pre post : list case)
    (cmd : list str) (expected : str) (x : exn) :
  (forall c, In c pre -> case_passes w c \/ case_fails w c) ->
  snd (test cmd expected w) = Raise x ->
  main_on (pre ++ (cmd, expected) :: post) w =
    (EvChdir :: case_traces w pre ++ fst (test cmd expected w), Raise x) /\
  prints (fst (main_on (pre ++ (cmd, expected) :: post) w)) =
    prints (case_traces w pre) /\
  spawns (fst (main_on (pre ++ (cmd, expected) :: post) w)) =
    argvs pre ++ [go_run cmd].
Proof.
  intros Hchk Hraise.
  assert (Hmain : main_on (pre ++ (cmd, expected) :: post) w =
            (EvChdir :: case_traces w pre ++ fst (test cmd expected w),
             Raise x)).
  { apply main_on_raises.
    rewrite loop_app, (loop_checked w pre 0 0 Hchk), loop_cons.
    destruct (test cmd expected w) as [t1 o]; simpl in *. now subst o. }
  split; [exact Hmain|]. rewrite Hmain. cbn [fst prints spawns]. split.
  - rewrite prints_app, (test_raise_silent w cmd expected x Hraise).
    now rewrite app_nil_r.
  - now rewrite spawns_app, spawns_case_traces, test_spawns.
Qed.

Lemma main_aborts_at_first_raise_witness :
  main world_unreadable =
    ([EvChdir; EvRun [lit "go"; lit "run"; lit "eg/eg1/eg1.go"];
      EvOpen (lit "rdata/eg1.txt")],
     Raise PermissionError).
Proof.
  apply (main_aborts_at_first_raise world_unreadable [] (tl test_cases)
           [lit "eg/eg1/eg1.go"] (lit "eg1.txt") PermissionError).
  - intros c [].
  - reflexivity.
Defined.

(** X2: [main] returns iff every case is checked, that is iff no case
    raises; otherwise an exception leaves it. *)
Theorem main_returns_iff (w : World) (cases : list case) :
  ((exists tr, main_on cases w = (tr, Return tt)) <->
   (forall c, In c cases -> case_passes w c \/ case_fails w c)) /\
  ((exists tr, main_on cases w = (tr, Return tt)) \/
   (exists tr x, main_on cases w = (tr, Raise x))).
Proof.
  destruct (main_on_cases w cases) as [(n & x & Hm)|(Hchk & Hl & Hm)].
  - split; [split|right; eauto].
    + intros [tr Htr]. congruence.
    + intros Hchk. pose proof (loop_checked w cases 0 0 Hchk) as Hl.
      rewrite (main_on_returns w cases _ _ _ Hl) in Hm. discriminate.
  - split; [split|left]; eauto.
Qed.

Lemma prints_count (w : World) (l : list case) :
  (forall c, In c l -> case_passes w c \/ case_fails w c) ->
  Z.of_nat (List.length (prints (case_traces w l))) =
    Z.of_nat (List.length l) - sum (map (verdict w) l).
Proof.
  induction l as [|c l IH]; intros Hchk; [reflexivity|].
  rewrite case_traces_cons, prints_app, length_app, Nat2Z.inj_add.
  rewrite IH by (intros c' Hc'; apply Hchk; now right).
  unfold sum. cbn [map fold_right].
  change (List.length (c :: l)) with (S (List.length l)).
  rewrite (Nat2Z.inj_succ (List.length l)).
  destruct (Hchk c (or_introl eq_refl)) as [Hp|Hf].
  - rewrite (passes_silent w c Hp), (verdict_passes w c Hp).
    cbn [List.length]. lia.
  - destruct (fails_one_message w c Hf) as (m & -> & _).
    rewrite (verdict_fails w c Hf). cbn [List.length]. lia.
Qed.

(** X3: in a run that checks every case the number of diagnostics printed
    is the number of failed cases, [total - ok], so [main] makes
    [total - ok + 1] print calls in all. *)
Theorem diagnostics_count (w : World) (cases : list case) :
  (forall c, In c cases -> case_passes w c \/ case_fails w c) ->
  exists tr total ok,
    main_on cases w = (tr, Return tt) /\
    loop cases 0 0 w = (case_traces w cases, Return (total, ok)) /\
    Z.of_nat (List.length (prints (case_traces w cases))) = total - ok /\
    Z.of_nat (List.length (prints tr)) = total - ok + 1.
Proof.
  intros Hchk.
  pose proof (loop_checked w cases 0 0 Hchk) as Hl. rewrite !Z.add_0_l in Hl.
  eexists _, _, _. split; [apply (main_on_returns w cases _ _ _ Hl)|].
  split; [exact Hl|]. pose proof (prints_count w cases Hchk) as Hc.
  split; [exact Hc|].
  cbn [prints]. rewrite prints_app, length_app, Nat2Z.inj_add, Hc.
  reflexivity.
Qed.

Lemma diagnostics_count_witness :
  exists tr, main world_no_golden = (tr, Return tt) /\
             List.length (prints tr) = 9%nat.
Proof.
  destruct (diagnostics_count world_no_golden test_cases)
    as (tr & total & ok & Hm & Hl & _ & Hc).
  - intros c Hc. right. now apply world_no_golden_all_fail.
  - exists tr. split; [exact Hm|].
    vm_compute in Hl. inversion Hl; subst total ok.
    apply Nat2Z.inj. rewrite Hc. reflexivity.
Defined.

(** X4: the children [main] spawns are the cases' commands, each behind
    [go run], in the order of the list and without repetition or gap: a
    leading part of them in any run, all of them when [main] returns. *)
Theorem main_spawns_in_order (w : World) (cases : list case) :
  (exists n, spawns (fst (main_on cases w)) = firstn n (argvs cases)) /\
  (snd (main_on cases w) = Return tt ->
   spawns (fst (main_on cases w)) = argvs cases).
Proof.
  destruct (main_on_cases w cases) as [(n & x & Hm)|(Hchk & Hl & Hm)];
    rewrite Hm; cbn [fst snd spawns].
  - split; [|discriminate]. exists n.
    rewrite spawns_case_traces. unfold argvs. now rewrite firstn_map.
  - rewrite spawns_app, spawns_case_traces. cbn [spawns].
    rewrite app_nil_r. split; [|reflexivity].
    exists (List.length (argvs cases)). now rewrite firstn_all.
Qed.

Lemma main_spawns_in_order_witness :
  spawns (fst (main world_hello)) = argvs test_cases.
Proof.
  apply (main_spawns_in_order world_hello test_cases). reflexivity.
Defined.

(** X5: [main] opens no file but golden files of its cases, all under
    [rdata/]. *)
Theorem main_opens_only_golden (w : World) (cases : list case) (f : str) :
  In f (opens (fst (main_on cases w))) ->
  exists c, In c cases /\ f = lit "rdata/" ++ snd c.
Proof.
  intros Hin.
  assert (exists l, incl l cases /\ In f (opens (case_traces w l)))
    as (l & Hincl & Hl).
  { destruct (main_on_cases w cases) as [(n & x & Hm)|(Hchk & _ & Hm)];
      rewrite Hm in Hin; cbn [fst opens] in Hin.
    - exists (firstn n cases). split; [|exact Hin].
      intros c Hc. rewrite <- (firstn_skipn n cases).
      apply in_or_app. now left.
    - exists cases. split; [apply incl_refl|].
      rewrite opens_app in Hin. cbn [opens] in Hin.
      now rewrite app_nil_r in Hin. }
  destruct (opens_case_traces w l f Hl) as (c & Hc & ->).
  exists c. split; [now apply Hincl | reflexivity].
Qed.

Lemma main_opens_only_golden_witness :
  exists c, In c test_cases /\ lit "rdata/eg2.hlp" = lit "rdata/" ++ snd c.
Proof.
  apply (main_opens_only_golden world_hello test_cases (lit "rdata/eg2.hlp")).
  vm_compute. tauto.
Defined.

Lemma checked_split (w : World) (l : list case) :
  (forall c, In c l -> case_passes w c \/ case_fails w c) ->
  (forall c, In c l -> case_passes w c) \/
  (exists c, In c l /\ case_fails w c).
Proof.
  induction l as [|c l IH]; intros Hchk; [left; intros c []|].
  destruct (Hchk c (or_introl eq_refl)) as [Hp|Hf].
  - destruct IH as [Hall|(c' & Hc' & Hf')].
    + intros c' Hc'. apply Hchk. now right.
    + left. intros c' [<-|Hc']; auto.
    + right. exists c'. split; [now right | exact Hf'].
  - right. exists c. split; [now left | exact Hf].
Qed.

Lemma all_pass_silent (w : World) (l : list case) :
  (forall c, In c l -> case_passes w c) -> prints (case_traces w l) = [].
Proof.
  induction l as [|c l IH]; intros Hall; [reflexivity|].
  rewrite case_traces_cons, prints_app.
  rewrite (passes_silent w c) by (apply Hall; now left).
  apply IH. intros c' Hc'. apply Hall. now right.
Qed.

Lemma prefixed_head (ms : list str) :
  ms <> [] ->
  (forall m, In m ms -> startswith (lit "FAIL ") m = true) ->
  exists rest, List.concat (map (fun m => m ++ [LF]) ms) = 70%N :: rest.
Proof.
  destruct ms as [|m ms]; [congruence|]. intros _ H.
  specialize (H m (or_introl eq_refl)).
  destruct m as [|c m]; [discriminate|].
  change (char_eqb 70%N c && startswith (lit "AIL ") m = true) in H.
  apply andb_true_iff in H. destruct H as [Hc _].
  apply N.eqb_eq in Hc. subst c. simpl. eauto.
Qed.

(** X6: in a run that checks every case, every case passes iff the whole
    output is the one line [All {total} OK]. *)
Theorem all_pass_iff_single_line (w : World) (cases : list case) :
  (forall c, In c cases -> case_passes w c \/ case_fails w c) ->
  ((forall c, In c cases -> case_passes w c) <->
   printed (fst (main_on cases w)) =
     lit "All " ++ str_of_int (Z.of_nat (List.length cases)) ++ lit " OK"
       ++ [LF]).
Proof.
  intros Hchk.
  pose proof (loop_checked w cases 0 0 Hchk) as Hl. rewrite !Z.add_0_l in Hl.
  rewrite (main_on_returns w cases _ _ _ Hl). cbn [fst].
  set (total := Z.of_nat (List.length cases)).
  set (ok := sum (map (verdict w) cases)).
  split.
  - intros Hall. rewrite printed_of_prints. cbn [prints].
    rewrite prints_app, (all_pass_silent w cases Hall). cbn [prints app].
    assert (ok = total) as -> by (now apply sum_verdict_all_pass).
    unfold summary. rewrite Z.eqb_refl. cbn [negb map List.concat].
    unfold msg_all_ok. now rewrite app_nil_r, <- !app_assoc.
  - intros Hout.
    destruct (checked_split w cases Hchk) as [Hall|Hsome]; [exact Hall|].
    exfalso.
    assert (ok < total) as Hlt by (now apply sum_verdict_some_fail).
    rewrite printed_of_prints in Hout. cbn [prints] in Hout.
    destruct (prefixed_head
                (prints (case_traces w cases ++ [EvPrint (summary total ok)])))
      as [rest Hrest].
    + rewrite prints_app. cbn [prints].
      destruct (prints (case_traces w cases)); discriminate.
    + intros m Hm. rewrite prints_app in Hm. apply in_app_or in Hm.
      destruct Hm as [Hm|Hm].
      * now apply (prints_case_traces_prefixed w cases).
      * cbn [prints] in Hm. destruct Hm as [<-|[]].
        unfold summary.
        assert ((total =? ok) = false) as -> by (apply Z.eqb_neq; lia).
        reflexivity.
    + rewrite Hrest in Hout. discriminate.
Qed.

Lemma all_pass_iff_single_line_witness :
  printed (fst (main world_hello)) = lit "All 8 OK" ++ [LF].
Proof.
  apply (all_pass_iff_single_line world_hello test_cases).
  - intros c Hc. left. now apply world_hello_all_pass.
  - apply world_hello_all_pass.
Defined.

(** X7: every message [main] prints starts with [FAIL ], except the
    summary [All {total} OK]. *)
Theorem main_messages_prefixed (w : World) (cases : list case) (m : str) :
  In m (prints (fst (main_on cases w))) ->
  startswith (lit "FAIL ") m = true \/
  m = lit "All " ++ str_of_int (Z.of_nat (List.length cases)) ++ lit " OK".
Proof.
  intros Hin.
  destruct (main_on_cases w cases) as [(n & x & Hm)|(Hchk & _ & Hm)];
    rewrite Hm in Hin; cbn [fst prints] in Hin.
  - left. now apply (prints_case_traces_prefixed w (firstn n cases)).
  - rewrite prints_app in Hin. apply in_app_or in Hin.
    destruct Hin as [Hin|Hin].
    + left. now apply (prints_case_traces_prefixed w cases).
    + cbn [prints] in Hin. destruct Hin as [<-|[]]. unfold summary.
      destruct (negb (Z.of_nat (List.length cases)
                      =? sum (map (verdict w) cases)));
        [left; reflexivity | right; reflexivity].
Qed.

Lemma main_messages_prefixed_witness :
  startswith (lit "FAIL ") (lit "FAIL 0/8") = true \/
  lit "FAIL 0/8" = lit "All " ++ str_of_int 8 ++ lit " OK".
Proof.
  apply (main_messages_prefixed world_no_golden test_cases (lit "FAIL 0/8")).
  vm_compute. tauto.
Defined.

(** ** Further properties of the comparison *)

Lemma lstrip_head (s t : str) (c : char) :
  lstrip s = c :: t -> isspace c = false.
Proof.
  induction s as [|a s IH]; simpl; [discriminate|].
  destruct (isspace a) eqn:E; [exact IH|].
  intros H. inversion H; subst. exact E.
Qed.

Lemma lstrip_nil_iff (s : str) : lstrip s = [] <-> all_space s.
Proof.
  split.
  - induction s as [|a s IH]; simpl; intros H; [constructor|].
    destruct (isspace a) eqn:E; [|discriminate].
    constructor; [exact E | exact (IH H)].
  - intros H. rewrite <- (app_nil_r s). now rewrite lstrip_all_space.
Qed.

Lemma strip_nil_iff (s : str) : strip s = [] <-> all_space s.
Proof.
  unfold strip, rstrip. split.
  - intros H.
    assert (Hl : lstrip (rev (lstrip s)) = []).
    { destruct (lstrip (rev (lstrip s))) as [|a t]; [reflexivity|].
      simpl in H. destruct (rev t); discriminate. }
    apply lstrip_nil_iff in Hl. apply all_space_rev in Hl.
    rewrite rev_involutive in Hl. apply lstrip_nil_iff.
    destruct (lstrip s) as [|a t] eqn:E; [reflexivity|].
    apply lstrip_head in E. inversion Hl; congruence.
  - intros H. apply lstrip_nil_iff in H. now rewrite H.
Qed.

Lemma strip_tight (s : str) : tight s = true -> strip s = s.
Proof.
  destruct s as [|c t]; [reflexivity|].
  unfold tight. rewrite andb_true_iff, !negb_true_iff. intros [Hc Hl].
  unfold strip, rstrip.
  assert (lstrip (c :: t) = c :: t) as -> by (simpl; now rewrite Hc).
  assert (Hne : c :: t <> []) by discriminate.
  remember (c :: t) as s eqn:Es.
  assert (Hrev : rev s = last s c :: rev (removelast s)).
  { rewrite (app_removelast_last c Hne) at 1. now rewrite rev_app_distr. }
  rewrite Hrev. cbn [lstrip]. rewrite Hl, <- Hrev. apply rev_involutive.
Qed.

(** X8: only the whitespace at the two ends is ignored.  With exit code
    0 and empty stderr, a stdout and a golden text that are two bodies with
    no whitespace at their ends, each wrapped in whitespace, pass iff the
    two bodies are equal character for character, and fail otherwise. *)
Theorem test_compares_bodies (w : World) (cmd : list str) (expected : str)
    (r : CompletedProcess) (l1 b1 r1 l2 b2 r2 : str) :
  subprocess_run w (go_run cmd) = Return r ->
  returncode r = 0 ->
  stderr r = [] ->
  stdout r = l1 ++ b1 ++ r1 ->
  open_read w (golden expected) = Return (l2 ++ b2 ++ r2) ->
  all_space l1 -> all_space r1 -> all_space l2 -> all_space r2 ->
  tight b1 = true -> tight b2 = true ->
  (snd (test cmd expected w) = Return 1 <-> b1 = b2) /\
  (snd (test cmd expected w) = Return 0 <-> b1 <> b2).
Proof.
  intros Hrun Hrc Herr Hout Ho Hl1 Hr1 Hl2 Hr2 Ht1 Ht2.
  assert (Hs1 : strip (stdout r) = b1)
    by (rewrite Hout, strip_pad by assumption; now apply strip_tight).
  assert (Hs2 : strip (l2 ++ b2 ++ r2) = b2)
    by (rewrite strip_pad by assumption; now apply strip_tight).
  destruct (str_eq_dec b1 b2) as [Heq|Hne].
  - rewrite (test_pass w cmd expected r _ Hrun Hrc Herr Ho) by congruence.
    simpl. split; split; intros; try congruence; try discriminate; tauto.
  - rewrite (test_differs w cmd expected r _ Hrun Hrc Herr Ho) by congruence.
    simpl. split; split; intros; try congruence; try discriminate; tauto.
Qed.

Lemma test_compares_bodies_witness :
  snd (test [lit "eg/eg1/eg1.go"] (lit "eg1.txt")
         (world_reply (reply_ok (lit "  hello") ))) = Return 1.
Proof.
  apply (test_compares_bodies (world_reply (reply_ok (lit "  hello")))
           [lit "eg/eg1/eg1.go"] (lit "eg1.txt") (reply_ok (lit "  hello"))
           (lit "  ") (lit "hello") [] [] (lit "hello") []);
    try reflexivity; repeat constructor.
Defined.

(** X9: with exit code 0 and empty stderr, a child that prints nothing
    but whitespace (or nothing at all) passes iff its golden file holds
    nothing but whitespace (or is empty). *)
Theorem test_blank_output (w : World) (cmd : list str) (expected : str)
    (r : CompletedProcess) (g : str) :
  subprocess_run w (go_run cmd) = Return r ->
  returncode r = 0 ->
  stderr r = [] ->
  all_space (stdout r) ->
  open_read w (golden expected) = Return g ->
  (snd (test cmd expected w) = Return 1 <-> all_space g).
Proof.
  intros Hrun Hrc Herr Hout Ho.
  apply strip_nil_iff in Hout. rewrite <- strip_nil_iff.
  destruct (str_eq_dec (strip (stdout r)) (strip g)) as [Heq|Hne].
  - rewrite (test_pass w cmd expected r g Hrun Hrc Herr Ho Heq).
    simpl. split; congruence.
  - rewrite (test_differs w cmd expected r g Hrun Hrc Herr Ho Hne).
    simpl. split; [discriminate | congruence].
Qed.

Lemma test_blank_output_witness :
  snd (test [lit "eg/eg1/eg1.go"] (lit "eg1.txt")
         (with_texts world_hello [LF] [])) = Return 1.
Proof.
  apply (test_blank_output (with_texts world_hello [LF] [])
           [lit "eg/eg1/eg1.go"] (lit "eg1.txt") (reply_ok [LF]) []);
    try reflexivity; repeat constructor.
Defined.

(** ** The eight cases of [main] *)

(** X10: whenever [main] returns it has spawned eight children, those of
    its case list in order, and for some [ok] between 0 and 8 it has made
    [9 - ok] print calls, the last line of its output being [All 8 OK]
    when [ok] is 8 and [FAIL {ok}/8] otherwise. *)
Theorem main_eight_cases (w : World) (tr : trace) :
  main w = (tr, Return tt) ->
  spawns tr = argvs test_cases /\
  List.length (spawns tr) = 8%nat /\
  exists ok,
    0 <= ok <= 8 /\
    Z.of_nat (List.length (prints tr)) = 9 - ok /\
    last (lines (printed tr)) [] =
      (if ok =? 8 then lit "All 8 OK"
       else lit "FAIL " ++ str_of_int ok ++ lit "/8").
Proof.
  intros Hmain. unfold main in Hmain.
  assert (Hlen : Z.of_nat (List.length test_cases) = 8) by reflexivity.
  assert (Hlen' : List.length (argvs test_cases) = 8%nat) by reflexivity.
  remember test_cases as cases eqn:Ec.
  destruct (main_on_cases w cases) as [(n & x & Hm)|(Hchk & _ & Hm)];
    [congruence|].
  rewrite Hlen in Hm.
  set (ok := sum (map (verdict w) cases)) in *.
  assert (Htr : tr = EvChdir :: case_traces w cases ++
                       [EvPrint (summary 8 ok)]) by congruence.
  clear Hmain Hm. rewrite Htr. clear Htr tr.
  assert (Hsp : spawns (EvChdir :: case_traces w cases ++
                  [EvPrint (summary 8 ok)]) = argvs cases).
  { cbn [spawns]. rewrite spawns_app, spawns_case_traces. cbn [spawns].
    now rewrite app_nil_r. }
  split; [exact Hsp|]. split; [now rewrite Hsp|].
  exists ok.
  pose proof (sum_verdict_bounds w cases) as Hb. fold ok in Hb.
  rewrite Hlen in Hb.
  split; [exact Hb|]. split.
  - cbn [prints]. rewrite prints_app, length_app, Nat2Z.inj_add.
    rewrite (prints_count w cases Hchk), Hlen. fold ok.
    cbn [prints List.length]. lia.
  - cbn [printed]. rewrite printed_app, lines_printed_app. cbn [printed].
    rewrite app_nil_r, (lines_single _ (no_LF_summary 8 ok)), last_last.
    unfold summary. rewrite (Z.eqb_sym 8 ok).
    destruct (ok =? 8); reflexivity.
Qed.

Lemma main_eight_cases_witness :
  List.length (spawns (fst (main world_hello))) = 8%nat.
Proof.
  apply (main_eight_cases world_hello (fst (main world_hello))).
  reflexivity.
Defined.
